(** * SCPI multimeter component (components/owon_xdm/owon_xdm.h)

    A shallow embedding of the ESPHome component [SCPIDMM]: the command
    table, the byte-wise line framing of [loop], the response handler, the
    measurement-function parser and the fixed-period polling check.

    Strings are [std::string]: sequences of 8-bit characters, here
    [String.string] over [Ascii.ascii].  The component's member variables
    form the record [SCPIDMM]; every member function is a computation in a
    small state-and-trace monad that threads the record and collects the
    calls made on the outside world (UART writes, sensor publications, log
    lines, service registrations) in program order. *)

From Stdlib Require Import ZArith Ascii Floats.SpecFloat.
From stdpp Require Import base option list strings gmap.

Local Open Scope Z_scope.
Local Open Scope stdpp_scope.

(** ** Characters and strings *)

Module Str.

Definition CR : ascii := "013"%char.
Definition LF : ascii := "010"%char.

(** The two bytes every outgoing command ends with. *)
Definition CRLF : string := String CR (String LF EmptyString).

(** [std::string::operator+=(char)]. *)
Definition push_back (s : string) (c : ascii) : string :=
  s +:+ String c EmptyString.

(** [::toupper] in the C locale: the 26 lower-case letters move down by
    32, every other byte is returned as it is. *)
Definition toupper (c : ascii) : ascii :=
  let n := N_of_ascii c in
  if ((97 <=? n) && (n <=? 122))%N then ascii_of_N (n - 32) else c.

(** [std::transform(begin, end, begin, f)] on a string. *)
Fixpoint transform (f : ascii -> ascii) (s : string) : string :=
  match s with
  | EmptyString => EmptyString
  | String c s' => String (f c) (transform f s')
  end.

(** Does [s] start with [pat]? *)
Fixpoint starts_with (pat s : string) : bool :=
  match pat, s with
  | EmptyString, _ => true
  | String _ _, EmptyString => false
  | String a pat', String b s' =>
      if Ascii.eqb a b then starts_with pat' s' else false
  end.

(** [std::string::find(pat)]: the index of the first occurrence of
    [pat] in [s]; [None] stands for [std::string::npos]. *)
Fixpoint find (s pat : string) : option nat :=
  if starts_with pat s then Some 0%nat
  else match s with
       | EmptyString => None
       | String _ s' => S <$> find s' pat
       end.

(** [s.find(pat) != std::string::npos]. *)
Definition found (s pat : string) : bool :=
  match find s pat with Some _ => true | None => false end.

(** The bytes of a string, as they travel over the serial line. *)
Definition bytes (s : string) : list ascii := String.list_ascii_of_string s.

(** [std::string::c_str] as a C function reads it: the characters before
    the first NUL. *)
Fixpoint c_str (s : string) : string :=
  match s with
  | EmptyString => EmptyString
  | String c s' => if Ascii.eqb c "000" then EmptyString else String c (c_str s')
  end.

(** [std::string::empty]. *)
Definition empty (s : string) : bool :=
  match s with EmptyString => true | String _ _ => false end.

End Str.

(** ** The command table *)

(** [struct DeviceCommands]. *)
Record DeviceCommands := mkDeviceCommands {
  measure_voltage_dc : string;
  measure_voltage_ac : string;
  measure_current_dc : string;
  measure_current_ac : string;
  measure_resistance : string;
  measure_frequency : string;
  measure_capacitance : string;
  measure_temperature : string;
  measure_continuity : string;
  measure_diode : string;
  identify : string;
  reset : string;
  remote_enable : string;
  fast_mode : string;
  init_commands : list string
}.

(** [DeviceCommands{}]: every member at its default member initializer. *)
Definition default_DeviceCommands : DeviceCommands := {|
  measure_voltage_dc := "MEAS:VOLT:DC?";
  measure_voltage_ac := "MEAS:VOLT:AC?";
  measure_current_dc := "MEAS:CURR:DC?";
  measure_current_ac := "MEAS:CURR:AC?";
  measure_resistance := "MEAS:RES?";
  measure_frequency := "MEAS:FREQ?";
  measure_capacitance := "MEAS:CAP?";
  measure_temperature := "MEAS:TEMP?";
  measure_continuity := "MEAS:CONT?";
  measure_diode := "MEAS:DIOD?";
  identify := "*IDN?";
  reset := "*RST";
  remote_enable := "SYST:REM";
  fast_mode := "";
  init_commands := []
|}.

(** The two designated-initializer entries; members that are not named keep
    their defaults. *)
Definition OWON_XDM_commands : DeviceCommands := {|
  measure_voltage_dc := "MEAS:VOLT?";
  measure_voltage_ac := measure_voltage_ac default_DeviceCommands;
  measure_current_dc := "MEAS:CURR?";
  measure_current_ac := measure_current_ac default_DeviceCommands;
  measure_resistance := measure_resistance default_DeviceCommands;
  measure_frequency := measure_frequency default_DeviceCommands;
  measure_capacitance := measure_capacitance default_DeviceCommands;
  measure_temperature := measure_temperature default_DeviceCommands;
  measure_continuity := measure_continuity default_DeviceCommands;
  measure_diode := measure_diode default_DeviceCommands;
  identify := identify default_DeviceCommands;
  reset := reset default_DeviceCommands;
  remote_enable := remote_enable default_DeviceCommands;
  fast_mode := "RATE F";
  init_commands := ["RATE F"; "RATE?"]
|}.

Definition KEYSIGHT_34460A_commands : DeviceCommands := {|
  measure_voltage_dc := measure_voltage_dc default_DeviceCommands;
  measure_voltage_ac := measure_voltage_ac default_DeviceCommands;
  measure_current_dc := measure_current_dc default_DeviceCommands;
  measure_current_ac := measure_current_ac default_DeviceCommands;
  measure_resistance := measure_resistance default_DeviceCommands;
  measure_frequency := measure_frequency default_DeviceCommands;
  measure_capacitance := measure_capacitance default_DeviceCommands;
  measure_temperature := measure_temperature default_DeviceCommands;
  measure_continuity := measure_continuity default_DeviceCommands;
  measure_diode := measure_diode default_DeviceCommands;
  identify := identify default_DeviceCommands;
  reset := reset default_DeviceCommands;
  remote_enable := remote_enable default_DeviceCommands;
  fast_mode := fast_mode default_DeviceCommands;
  init_commands :=
    ["DISP:TEXT:CLE"; "SENS:VOLT:DC:NPLC 0.02"; "TRIG:SOUR IMM";
     "TRIG:COUN INF"]
|}.

(** [static const std::map<std::string, DeviceCommands> DEVICE_COMMANDS]. *)
Definition DEVICE_COMMANDS : gmap string DeviceCommands :=
  <["OWON_XDM" := OWON_XDM_commands]>
    (<["KEYSIGHT_34460A" := KEYSIGHT_34460A_commands]> ∅).

(** [enum class MeasurementFunction]. *)
Inductive MeasurementFunction :=
| VOLTAGE_DC
| VOLTAGE_AC
| CURRENT_DC
| CURRENT_AC
| RESISTANCE
| CONTINUITY
| DIODE
| FREQUENCY
| TEMPERATURE
| CAPACITANCE
| UNKNOWN.

#[global] Instance MeasurementFunction_eq_dec : EqDecision MeasurementFunction.
Proof. solve_decision. Defined.

(** Modelled from the spec: the header declares [DEVICE_COMMANDS] but holds
    no function that reads it; the lookup is the one of the Command Table
    contract, "the device-specific entry if [device_type] matches a known key
    exactly; otherwise the generic default entry". *)
Definition lookup_commands (device_type : string) : DeviceCommands :=
  match DEVICE_COMMANDS !! device_type with
  | Some entry => entry
  | None => default_DeviceCommands
  end.

(** The query string a command set holds for a measurement function, after
    the spec's wording "the query string the Command Table gives for that
    function"; [UNKNOWN] has no member of its own and takes the generic
    query. *)
Definition table_query (cs : DeviceCommands) (f : MeasurementFunction) : string :=
  match f with
  | VOLTAGE_DC => measure_voltage_dc cs
  | VOLTAGE_AC => measure_voltage_ac cs
  | CURRENT_DC => measure_current_dc cs
  | CURRENT_AC => measure_current_ac cs
  | RESISTANCE => measure_resistance cs
  | CONTINUITY => measure_continuity cs
  | DIODE => measure_diode cs
  | FREQUENCY => measure_frequency cs
  | TEMPERATURE => measure_temperature cs
  | CAPACITANCE => measure_capacitance cs
  | UNKNOWN => "MEAS?"
  end.

(** ** The component state *)

(** A non-null pointer to a framework object; a pointer member is an
    [option addr], [None] being [nullptr]. *)
Definition addr := positive.

(** The member variables of [class SCPIDMM], in declaration order. *)
Record SCPIDMM := mkSCPIDMM {
  value_sensor : option addr;
  secondary_value_sensor : option addr;
  function_sensor : option addr;
  range_sensor : option addr;
  status_sensor : option addr;
  idn_sensor : option addr;
  function_select : option addr;
  range_select : option addr;
  rate_select : option addr;
  reset_button : option addr;
  zero_button : option addr;
  rx_buffer_ : string;
  current_function_ : MeasurementFunction;
  waiting_for_idn_ : bool;
  last_query_ : Z
}.

(** The default-constructed component ([SCPIDMM() = default] with the
    default member initializers). *)
Definition SCPIDMM_init : SCPIDMM := {|
  value_sensor := None;
  secondary_value_sensor := None;
  function_sensor := None;
  range_sensor := None;
  status_sensor := None;
  idn_sensor := None;
  function_select := None;
  range_select := None;
  rate_select := None;
  reset_button := None;
  zero_button := None;
  rx_buffer_ := "";
  current_function_ := UNKNOWN;
  waiting_for_idn_ := true;
  last_query_ := 0
|}.

(** [static const uint32_t query_interval_{100}]. *)
Definition query_interval_ : Z := 100.

(** Assignments to one member. *)
Definition with_value_sensor (v : option addr) (st : SCPIDMM) : SCPIDMM :=
  mkSCPIDMM v (secondary_value_sensor st) (function_sensor st)
    (range_sensor st) (status_sensor st) (idn_sensor st) (function_select st)
    (range_select st) (rate_select st) (reset_button st) (zero_button st)
    (rx_buffer_ st) (current_function_ st) (waiting_for_idn_ st)
    (last_query_ st).

Definition with_secondary_value_sensor (v : option addr) (st : SCPIDMM) : SCPIDMM :=
  mkSCPIDMM (value_sensor st) v (function_sensor st)
    (range_sensor st) (status_sensor st) (idn_sensor st) (function_select st)
    (range_select st) (rate_select st) (reset_button st) (zero_button st)
    (rx_buffer_ st) (current_function_ st) (waiting_for_idn_ st)
    (last_query_ st).

Definition with_function_sensor (v : option addr) (st : SCPIDMM) : SCPIDMM :=
  mkSCPIDMM (value_sensor st) (secondary_value_sensor st) v
    (range_sensor st) (status_sensor st) (idn_sensor st) (function_select st)
    (range_select st) (rate_select st) (reset_button st) (zero_button st)
    (rx_buffer_ st) (current_function_ st) (waiting_for_idn_ st)
    (last_query_ st).

Definition with_range_sensor (v : option addr) (st : SCPIDMM) : SCPIDMM :=
  mkSCPIDMM (value_sensor st) (secondary_value_sensor st) (function_sensor st)
    v (status_sensor st) (idn_sensor st) (function_select st)
    (range_select st) (rate_select st) (reset_button st) (zero_button st)
    (rx_buffer_ st) (current_function_ st) (waiting_for_idn_ st)
    (last_query_ st).

Definition with_status_sensor (v : option addr) (st : SCPIDMM) : SCPIDMM :=
  mkSCPIDMM (value_sensor st) (secondary_value_sensor st) (function_sensor st)
    (range_sensor st) v (idn_sensor st) (function_select st)
    (range_select st) (rate_select st) (reset_button st) (zero_button st)
    (rx_buffer_ st) (current_function_ st) (waiting_for_idn_ st)
    (last_query_ st).

Definition with_idn_sensor (v : option addr) (st : SCPIDMM) : SCPIDMM :=
  mkSCPIDMM (value_sensor st) (secondary_value_sensor st) (function_sensor st)
    (range_sensor st) (status_sensor st) v (function_select st)
    (range_select st) (rate_select st) (reset_button st) (zero_button st)
    (rx_buffer_ st) (current_function_ st) (waiting_for_idn_ st)
    (last_query_ st).

Definition with_function_select (v : option addr) (st : SCPIDMM) : SCPIDMM :=
  mkSCPIDMM (value_sensor st) (secondary_value_sensor st) (function_sensor st)
    (range_sensor st) (status_sensor st) (idn_sensor st) v
    (range_select st) (rate_select st) (reset_button st) (zero_button st)
    (rx_buffer_ st) (current_function_ st) (waiting_for_idn_ st)
    (last_query_ st).

Definition with_range_select (v : option addr) (st : SCPIDMM) : SCPIDMM :=
  mkSCPIDMM (value_sensor st) (secondary_value_sensor st) (function_sensor st)
    (range_sensor st) (status_sensor st) (idn_sensor st) (function_select st)
    v (rate_select st) (reset_button st) (zero_button st)
    (rx_buffer_ st) (current_function_ st) (waiting_for_idn_ st)
    (last_query_ st).

Definition with_rate_select (v : option addr) (st : SCPIDMM) : SCPIDMM :=
  mkSCPIDMM (value_sensor st) (secondary_value_sensor st) (function_sensor st)
    (range_sensor st) (status_sensor st) (idn_sensor st) (function_select st)
    (range_select st) v (reset_button st) (zero_button st)
    (rx_buffer_ st) (current_function_ st) (waiting_for_idn_ st)
    (last_query_ st).

Definition with_rx_buffer_ (v : string) (st : SCPIDMM) : SCPIDMM :=
  mkSCPIDMM (value_sensor st) (secondary_value_sensor st) (function_sensor st)
    (range_sensor st) (status_sensor st) (idn_sensor st) (function_select st)
    (range_select st) (rate_select st) (reset_button st) (zero_button st)
    v (current_function_ st) (waiting_for_idn_ st) (last_query_ st).

Definition with_current_function_ (v : MeasurementFunction) (st : SCPIDMM) : SCPIDMM :=
  mkSCPIDMM (value_sensor st) (secondary_value_sensor st) (function_sensor st)
    (range_sensor st) (status_sensor st) (idn_sensor st) (function_select st)
    (range_select st) (rate_select st) (reset_button st) (zero_button st)
    (rx_buffer_ st) v (waiting_for_idn_ st) (last_query_ st).

Definition with_waiting_for_idn_ (v : bool) (st : SCPIDMM) : SCPIDMM :=
  mkSCPIDMM (value_sensor st) (secondary_value_sensor st) (function_sensor st)
    (range_sensor st) (status_sensor st) (idn_sensor st) (function_select st)
    (range_select st) (rate_select st) (reset_button st) (zero_button st)
    (rx_buffer_ st) (current_function_ st) v (last_query_ st).

Definition with_last_query_ (v : Z) (st : SCPIDMM) : SCPIDMM :=
  mkSCPIDMM (value_sensor st) (secondary_value_sensor st) (function_sensor st)
    (range_sensor st) (status_sensor st) (idn_sensor st) (function_select st)
    (range_select st) (rate_select st) (reset_button st) (zero_button st)
    (rx_buffer_ st) (current_function_ st) (waiting_for_idn_ st) v.

(** ** Calls on the outside world *)

(** One constructor per call site kind.  A publication names the member
    through which it is made and the object that member points to. *)
Inductive Event {float : Type} :=
| UartWrite (data : string)
| ValuePublish (sensor : addr) (value : float)
| FunctionPublish (sensor : addr) (state : string)
| IdnPublish (sensor : addr) (state : string)
| LogWarning (tag format arg : string)
| RegisterService (name : string) (arg_names : list string)
| AddOnStateCallback (select : addr) (member : string).
Arguments Event : clear implicits.

(** The strings written to the instrument link, in order. *)
Fixpoint uart_tx {float : Type} (trace : list (Event float)) : list string :=
  match trace with
  | [] => []
  | UartWrite data :: rest => data :: uart_tx rest
  | _ :: rest => uart_tx rest
  end.

(** Is the event a publication to one of the sensor sinks? *)
Definition is_publication {float : Type} (e : Event float) : bool :=
  match e with
  | ValuePublish _ _ | FunctionPublish _ _ | IdnPublish _ _ => true
  | _ => false
  end.

Definition is_idn_publication {float : Type} (e : Event float) : bool :=
  match e with IdnPublish _ _ => true | _ => false end.

(** ** Member functions as computations *)

(** A member function reads and updates the component and leaves a trace. *)
Definition Comp (float A : Type) : Type :=
  SCPIDMM → A * SCPIDMM * list (Event float).

#[global] Instance Comp_ret {float} : MRet (Comp float) :=
  λ A a st, (a, st, []).

#[global] Instance Comp_bind {float} : MBind (Comp float) :=
  λ A B f m st,
    match m st with
    | (a, st1, t1) =>
        match f a st1 with
        | (b, st2, t2) => (b, st2, t1 ++ t2)
        end
    end.

Definition gets {float A} (f : SCPIDMM → A) : Comp float A :=
  λ st, (f st, st, []).

Definition modify {float} (f : SCPIDMM → SCPIDMM) : Comp float unit :=
  λ st, (tt, f st, []).

Definition emit {float} (e : Event float) : Comp float unit :=
  λ st, (tt, st, [e]).

(** The state and the trace a computation ends with. *)
Definition state_of {float A} (r : A * SCPIDMM * list (Event float)) : SCPIDMM :=
  snd (fst r).

Definition trace_of {float A} (r : A * SCPIDMM * list (Event float)) : list (Event float) :=
  snd r.

Section Component.

(** The C library's [std::stof] is not part of the component: it is taken
    as a parameter, together with the type of the values it returns.
    [stof s = None] stands for the call throwing ([std::invalid_argument]
    or [std::out_of_range]). *)
Context {float : Type}.
Variable stof : string → option float.

Abbreviation Comp := (Comp float).

(** The empty statement. *)
Definition skip : Comp unit := mret tt.

(** [UARTDevice::write_str]. *)
Definition write_str (data : string) : Comp unit :=
  emit (UartWrite data).

(** [if (sensor != nullptr) sensor->publish_state(...)], the call being
    the event [ev] applied to the object pointed to. *)
Definition publish_if_bound (sensor : option addr) (ev : addr → Event float) : Comp unit :=
  match sensor with
  | Some obj => emit (ev obj)
  | None => skip
  end.

(** *** Setters *)

Definition set_value_sensor (value_sensor : option addr) : Comp unit :=
  modify (with_value_sensor value_sensor).

Definition set_secondary_value_sensor (sensor : option addr) : Comp unit :=
  modify (with_secondary_value_sensor sensor).

Definition set_function_sensor (sensor : option addr) : Comp unit :=
  modify (with_function_sensor sensor).

Definition set_range_sensor (sensor : option addr) : Comp unit :=
  modify (with_range_sensor sensor).

(** [{ this->status_sensor = status_sensor; }]: the parameter is called
    [sensor], so the right-hand side names the member. *)
Definition set_status_sensor (sensor : option addr) : Comp unit :=
  modify (λ this, with_status_sensor (status_sensor this) this).

(** [{ this->idn_sensor = idn_sensor; }], likewise. *)
Definition set_idn_sensor (sensor : option addr) : Comp unit :=
  modify (λ this, with_idn_sensor (idn_sensor this) this).

(** The select setters store the pointer and subscribe, on the object it
    points to, a lambda that forwards to the member named in the event;
    those members are not defined in the header, so only the subscription
    is recorded.  The source dereferences the pointer unchecked: a null
    argument, undefined there, subscribes nothing here. *)
Definition add_on_state_callback (select : option addr) (member : string) : Comp unit :=
  match select with
  | Some obj => emit (AddOnStateCallback obj member)
  | None => skip
  end.

Definition set_function_select (select : option addr) : Comp unit :=
  modify (with_function_select select);;
  add_on_state_callback select "set_function_".

Definition set_range_select (select : option addr) : Comp unit :=
  modify (with_range_select select);;
  add_on_state_callback select "set_range_mode_".

Definition set_rate_select (select : option addr) : Comp unit :=
  modify (with_rate_select select);;
  add_on_state_callback select "set_rate_".

(** *** Commands *)

Definition send_command (cmd : string) : Comp unit :=
  write_str (cmd +:+ Str.CRLF).

Definition setup : Comp unit :=
  emit (RegisterService "relative_zero" []);;
  emit (RegisterService "reset" []);;
  emit (RegisterService "set_function" ["function"]);;
  emit (RegisterService "set_range" ["mode"]);;
  emit (RegisterService "set_rate" ["mode"]);;
  write_str ("*IDN?" +:+ Str.CRLF);;
  write_str ("*RST" +:+ Str.CRLF);;
  write_str ("SYST:REM" +:+ Str.CRLF).

Definition parse_function_ (function : string) : MeasurementFunction :=
  let upper := Str.transform Str.toupper function in
  if Str.found upper "VOLT:DC" then VOLTAGE_DC
  else if Str.found upper "VOLT:AC" then VOLTAGE_AC
  else if Str.found upper "CURR:DC" then CURRENT_DC
  else if Str.found upper "CURR:AC" then CURRENT_AC
  else if Str.found upper "RES" then RESISTANCE
  else if Str.found upper "CONT" then CONTINUITY
  else if Str.found upper "DIOD" then DIODE
  else if Str.found upper "FREQ" then FREQUENCY
  else if Str.found upper "TEMP" then TEMPERATURE
  else if Str.found upper "CAP" then CAPACITANCE
  else UNKNOWN.

Definition set_function (function : string) : Comp unit :=
  send_command function;;
  modify (with_current_function_ (parse_function_ function));;
  sensor ← gets function_sensor;
  publish_if_bound sensor (λ obj, FunctionPublish obj function).

Definition query_measurement_ : Comp unit :=
  f ← gets current_function_;
  match f with
  | VOLTAGE_DC => send_command "MEAS:VOLT:DC?"
  | VOLTAGE_AC => send_command "MEAS:VOLT:AC?"
  | CURRENT_DC => send_command "MEAS:CURR:DC?"
  | CURRENT_AC => send_command "MEAS:CURR:AC?"
  | RESISTANCE => send_command "MEAS:RES?"
  | FREQUENCY => send_command "MEAS:FREQ?"
  | CAPACITANCE => send_command "MEAS:CAP?"
  | TEMPERATURE => send_command "MEAS:TEMP?"
  | CONTINUITY => send_command "MEAS:CONT?"
  | DIODE => send_command "MEAS:DIOD?"
  | UNKNOWN => send_command "MEAS?"
  end.

(** *** Responses *)

Definition parse_numeric_response_ (response : string) : option float :=
  stof response.

Definition handle_response_ (response : string) : Comp unit :=
  if Str.empty response then skip
  else
    waiting ← gets waiting_for_idn_;
    if (waiting : bool) then
      sensor ← gets idn_sensor;
      publish_if_bound sensor (λ obj, IdnPublish obj response);;
      modify (with_waiting_for_idn_ false)
    else
      match parse_numeric_response_ response with
      | Some value =>
          sensor ← gets value_sensor;
          publish_if_bound sensor (λ obj, ValuePublish obj value)
      | None =>
          emit (LogWarning "scpi_dmm" "Non-numeric response: %s"
                  (Str.c_str response))
      end.

(** *** The loop *)

(** The body of [while (this->available())] for the byte just read. *)
Definition loop_byte (c : ascii) : Comp unit :=
  if Ascii.eqb c Str.LF then
    buffer ← gets rx_buffer_;
    if (0 <? String.length buffer)%nat then
      handle_response_ buffer;;
      modify (with_rx_buffer_ "")
    else skip
  else if negb (Ascii.eqb c Str.CR) then
    modify (λ this, with_rx_buffer_ (Str.push_back (rx_buffer_ this) c) this)
  else skip.

(** The [while] loop over the bytes the UART holds during this call. *)
Fixpoint loop_rx (available : list ascii) : Comp unit :=
  match available with
  | [] => skip
  | c :: rest => loop_byte c;; loop_rx rest
  end.

(** The periodic query at the end of [loop].  [millis()] is read twice:
    [now] is the value compared against [last_query_], [now'] the value
    stored; the subtraction is the one of [uint32_t]. *)
Definition loop_poll (now now' : Z) : Comp unit :=
  last ← gets last_query_;
  if query_interval_ <=? (now - last) mod 2 ^ 32 then
    query_measurement_;;
    modify (with_last_query_ now')
  else skip.

(** One call of [loop]. *)
Definition loop (available : list ascii) (now now' : Z) : Comp unit :=
  loop_rx available;;
  loop_poll now now'.

(** *** Calls from outside *)

(** The member functions the header defines that act on the component, all
    of them public; the two parsers are pure and need no call. *)
Inductive Call :=
| call_set_value_sensor (sensor : option addr)
| call_set_secondary_value_sensor (sensor : option addr)
| call_set_function_sensor (sensor : option addr)
| call_set_range_sensor (sensor : option addr)
| call_set_status_sensor (sensor : option addr)
| call_set_idn_sensor (sensor : option addr)
| call_set_function_select (select : option addr)
| call_set_range_select (select : option addr)
| call_set_rate_select (select : option addr)
| call_setup
| call_loop (available : list ascii) (now now' : Z)
| call_send_command (cmd : string)
| call_set_function (function : string)
| call_query_measurement_
| call_handle_response_ (response : string).

Definition exec (c : Call) : Comp unit :=
  match c with
  | call_set_value_sensor s => set_value_sensor s
  | call_set_secondary_value_sensor s => set_secondary_value_sensor s
  | call_set_function_sensor s => set_function_sensor s
  | call_set_range_sensor s => set_range_sensor s
  | call_set_status_sensor s => set_status_sensor s
  | call_set_idn_sensor s => set_idn_sensor s
  | call_set_function_select s => set_function_select s
  | call_set_range_select s => set_range_select s
  | call_set_rate_select s => set_rate_select s
  | call_setup => setup
  | call_loop available now now' => loop available now now'
  | call_send_command cmd => send_command cmd
  | call_set_function function => set_function function
  | call_query_measurement_ => query_measurement_
  | call_handle_response_ response => handle_response_ response
  end.

Fixpoint exec_all (cs : list Call) : Comp unit :=
  match cs with
  | [] => skip
  | c :: rest => exec c;; exec_all rest
  end.

End Component.

(** The responses handed to [handle_response_] one after the other. *)
Fixpoint handle_all {float} (stof : string → option float) (lines : list string) : Comp float unit :=
  match lines with
  | [] => skip
  | line :: rest => handle_response_ stof line;; handle_all stof rest
  end.

(** ** The Line Framer of the specification

    The contract [feed(byte) -> optional<Line>] read by its words: a
    carriage return is dropped, a line feed finalizes a non-empty buffer into
    a line and clears the buffer, any other byte is appended.  It is compared
    with [loop_rx] below. *)
Module Framer.

Definition feed (buffer : string) (c : ascii) : option string * string :=
  if Ascii.eqb c Str.LF then
    if Str.empty buffer then (None, buffer) else (Some buffer, "")
  else if Ascii.eqb c Str.CR then (None, buffer)
  else (None, Str.push_back buffer c).

(** The lines a byte sequence completes, and the buffer it leaves. *)
Fixpoint frame (buffer : string) (bytes : list ascii) : list string * string :=
  match bytes with
  | [] => ([], buffer)
  | c :: rest =>
      match feed buffer c with
      | (Some line, buffer') =>
          let (lines, final) := frame buffer' rest in (line :: lines, final)
      | (None, buffer') => frame buffer' rest
      end
  end.

End Framer.

(** ** [std::stof] over the C library's [strtof]

    [std::stof(str)] calls [strtof] on [str.c_str()] and throws
    [std::invalid_argument] when nothing was converted and
    [std::out_of_range] when [strtof] reports [ERANGE]; both are [None]
    here.  [strtof] is the one of the C standard in the C locale: white
    space, an optional sign, then INF or INFINITY, NAN, a hexadecimal
    floating constant or a decimal one, the longest that can be read, the
    rest of the text being ignored.  The value is rounded to the nearest
    binary32 number, ties to even ([SpecFloat] with a 24-bit significand);
    [ERANGE] is reported on overflow and, as the GNU C library does, when
    the result is tiny and inexact.  The payload and the sign of a NaN are
    not represented. *)
Module Strtof.

(** [isspace] in the C locale. *)
Definition isspace (c : ascii) : bool :=
  let n := N_of_ascii c in (((9 <=? n) && (n <=? 13)) || (n =? 32))%N.

(** [tolower] in the C locale. *)
Definition tolower (c : ascii) : ascii :=
  let n := N_of_ascii c in
  if ((65 <=? n) && (n <=? 90))%N then ascii_of_N (n + 32) else c.

Definition digit (c : ascii) : option Z :=
  let n := N_of_ascii c in
  if ((48 <=? n) && (n <=? 57))%N then Some (Z.of_N (n - 48)) else None.

Definition xdigit (c : ascii) : option Z :=
  let n := N_of_ascii (tolower c) in
  if ((48 <=? n) && (n <=? 57))%N then Some (Z.of_N (n - 48))
  else if ((97 <=? n) && (n <=? 102))%N then Some (Z.of_N (n - 87))
  else None.

Fixpoint skip_space (s : string) : string :=
  match s with
  | String c s' => if isspace c then skip_space s' else s
  | EmptyString => s
  end.

(** An optional sign: is it a minus, and what follows. *)
Definition sign (s : string) : bool * string :=
  match s with
  | String "-" s' => (true, s')
  | String "+" s' => (false, s')
  | _ => (false, s)
  end.

(** Does [s] start with the lower-case [word], letter case set aside? *)
Fixpoint prefix_ci (word s : string) : bool :=
  match word, s with
  | EmptyString, _ => true
  | String _ _, EmptyString => false
  | String a word', String b s' =>
      if Ascii.eqb a (tolower b) then prefix_ci word' s' else false
  end.

(** The longest run of digits at the head of [s], accumulated onto [acc] in
    the given base; [n] counts the digits read. *)
Fixpoint run (dig : ascii → option Z) (base : Z) (s : string) (acc : Z) (n : nat) : Z * nat * string :=
  match s with
  | String c s' =>
      match dig c with
      | Some d => run dig base s' (base * acc + d) (S n)
      | None => (acc, n, s)
      end
  | EmptyString => (acc, n, s)
  end.

(** Digits with an optional point among them, one digit at least: the
    digits read as one integer, the number of digits after the point, and
    what follows. *)
Definition mantissa (dig : ascii → option Z) (base : Z) (s : string) : option (Z * nat * string) :=
  let '(m1, n1, s1) := run dig base s 0 0%nat in
  let '(m, n2, s2) :=
    match s1 with
    | String "." s1' => run dig base s1' m1 0%nat
    | _ => (m1, 0%nat, s1)
    end in
  match (n1 + n2)%nat with
  | O => None
  | S _ => Some (m, n2, s2)
  end.

(** The exponent part after the [marker] (e or p); it counts only when a
    digit follows. *)
Definition exponent (marker : ascii) (s : string) : Z :=
  match s with
  | String c s' =>
      if Ascii.eqb (tolower c) marker then
        let (neg, s'') := sign s' in
        match run digit 10 s'' 0 0%nat with
        | (_, O, _) => 0
        | (e, S _, _) => if neg then - e else e
        end
      else 0
  | EmptyString => 0
  end.

(** A number is read as [(m, b, d)], standing for [m * 2 ^ b * 10 ^ d]. *)
Definition hexadecimal (s : string) : option (Z * Z * Z) :=
  match s with
  | String "0" (String x s') =>
      if Ascii.eqb (tolower x) "x" then
        match mantissa xdigit 16 s' with
        | Some (m, n2, rest) => Some (m, exponent "p" rest - 4 * Z.of_nat n2, 0)
        | None => None
        end
      else None
  | _ => None
  end.

Definition decimal (s : string) : option (Z * Z * Z) :=
  match mantissa digit 10 s with
  | Some (m, n2, rest) => Some (m, 0, exponent "e" rest - Z.of_nat n2)
  | None => None
  end.

(** "0x" with no hexadecimal digit after it is the decimal "0". *)
Definition number (s : string) : option (Z * Z * Z) :=
  match hexadecimal s with
  | Some x => Some x
  | None => decimal s
  end.

(** binary32: 24 bits of significand, infinities at exponent 128. *)
Definition prec : Z := 24.
Definition emax : Z := 128.

(** The binary32 number nearest to [n / d], ties to even; an infinity when
    it is too large. *)
Definition round (neg : bool) (n d : positive) : spec_float :=
  let '(mz, ez, lz) := SFdiv_core_binary prec emax (Zpos n) 0 (Zpos d) 0 in
  binary_round_aux prec emax neg mz ez lz.

(** [n / d] is still below the least normal number, [2 ^ -126], once rounded
    to 24 bits: it is below [2 ^ -126 - 2 ^ -151]. *)
Definition tiny (n d : positive) : bool :=
  Zpos n * 2 ^ 151 <? Zpos d * (2 ^ 25 - 1).

(** [m * 2 ^ e] is [n / d]. *)
Definition exact (n d : positive) (m : positive) (e : Z) : bool :=
  if 0 <=? e then Zpos m * 2 ^ e * Zpos d =? Zpos n
  else Zpos m * Zpos d =? Zpos n * 2 ^ (- e).

(** Does [strtof] report [ERANGE] for the non-zero [n / d] rounded to [r]? *)
Definition erange (n d : positive) (r : spec_float) : bool :=
  match r with
  | S754_infinity _ => true
  | S754_zero _ => true
  | S754_finite _ m e => tiny n d && negb (exact n d m e)
  | S754_nan => false
  end.

(** [base ^ k] for [k] positive, [1] otherwise. *)
Definition pow_pos_part (base k : Z) : Z := if 0 <=? k then base ^ k else 1.

Definition stof (s : string) : option spec_float :=
  let (neg, s1) := sign (skip_space s) in
  if prefix_ci "inf" s1 then Some (S754_infinity neg)
  else if prefix_ci "nan" s1 then Some S754_nan
  else
    match number s1 with
    | None => None
    | Some (m, b, d) =>
        match m * pow_pos_part 2 b * pow_pos_part 10 d,
              pow_pos_part 2 (- b) * pow_pos_part 10 (- d) with
        | Zpos n, Zpos den =>
            let r := round neg n den in
            if erange n den r then None else Some r
        | _, _ => Some (S754_zero neg)
        end
    end.

End Strtof.

(** ** Vocabulary of the properties *)

(** What [publish_if_bound] leaves in the trace. *)
Definition sink_trace {float} (sensor : option addr) (ev : addr → Event float) : list (Event float) :=
  match sensor with
  | Some obj => [ev obj]
  | None => []
  end.

(** The first response [handle_response_] does not return from at once. *)
Definition first_nonempty (lines : list string) : option string :=
  List.find (λ line, negb (Str.empty line)) lines.

(** The SCPI fragments in the priority order of the specification, each
    with the function it selects. *)
Definition fragments : list (string * MeasurementFunction) :=
  [("VOLT:DC", VOLTAGE_DC); ("VOLT:AC", VOLTAGE_AC); ("CURR:DC", CURRENT_DC);
   ("CURR:AC", CURRENT_AC); ("RES", RESISTANCE); ("CONT", CONTINUITY);
   ("DIOD", DIODE); ("FREQ", FREQUENCY); ("TEMP", TEMPERATURE);
   ("CAP", CAPACITANCE)].

(** The letters, in lower case and in upper case, in alphabetical order. *)
Definition lower_case : list ascii := Str.bytes "abcdefghijklmnopqrstuvwxyz".
Definition upper_case : list ascii := Str.bytes "ABCDEFGHIJKLMNOPQRSTUVWXYZ".

(** Two characters that are equal, or the two cases of one letter. *)
Definition same_letter (a b : ascii) : Prop :=
  a = b ∨
  ∃ i : nat,
    (lower_case !! i = Some a ∧ upper_case !! i = Some b) ∨
    (lower_case !! i = Some b ∧ upper_case !! i = Some a).

(** Two strings of one length that agree character by character, letter
    case set aside. *)
Definition same_ci (s1 s2 : string) : Prop :=
  Forall2 same_letter (Str.bytes s1) (Str.bytes s2).

(** [s] holds [fragment] somewhere, letter case set aside. *)
Definition contains_ci (s fragment : string) : Prop :=
  ∃ before mid after,
    s = before +:+ mid +:+ after ∧ same_ci mid fragment.

(** [s] holds [pat] somewhere. *)
Definition contains (s pat : string) : Prop :=
  ∃ before after, s = before +:+ pat +:+ after.

(** The UART writes of successive calls of [loop] at the clock readings
    [ts], nothing being received meanwhile: one list per call. *)
Fixpoint ticks {float} (stof : string → option float) (ts : list Z) (st : SCPIDMM) : list (list string) :=
  match ts with
  | [] => []
  | t :: rest =>
      let r := loop stof [] t t st in
      uart_tx (trace_of r) :: ticks stof rest (state_of r)
  end.

(** The function of the first fragment of [table] found in [upper]. *)
Fixpoint first_fragment (upper : string) (table : list (string * MeasurementFunction)) : MeasurementFunction :=
  match table with
  | [] => UNKNOWN
  | (fragment, f) :: rest =>
      if Str.found upper fragment then f else first_fragment upper rest
  end.

(** The bytes a sequence of calls receives from the UART, in order. *)
Fixpoint received (calls : list Call) : list ascii :=
  match calls with
  | [] => []
  | call_loop available _ _ :: rest => available ++ received rest
  | _ :: rest => received rest
  end.

(** What a terminator-free byte sequence adds to the buffer: everything but
    the carriage returns. *)
Fixpoint kept (bytes : list ascii) : string :=
  match bytes with
  | [] => ""
  | c :: rest => if Ascii.eqb c Str.CR then kept rest else String c (kept rest)
  end.

(** At which of the clock readings [ts] a query is due, [last] being the
    reading stored at the previous query. *)
Fixpoint due (ts : list Z) (last : Z) : list bool :=
  match ts with
  | [] => []
  | t :: rest =>
      let d := query_interval_ <=? (t - last) mod 2 ^ 32 in
      d :: due rest (if d then t else last)
  end.

(** A component past its first response, with a value sensor bound. *)
Definition running (sensor : addr) : SCPIDMM :=
  with_value_sensor (Some sensor) (with_waiting_for_idn_ false SCPIDMM_init).

(** ** Vocabulary of the further properties *)

(** [static const std::string FUNCTION_OPTIONS[]]. *)
Definition FUNCTION_OPTIONS : list string :=
  ["DC Voltage"; "AC Voltage"; "DC Current"; "AC Current"; "Resistance";
   "Capacitance"; "Continuity"; "Diode"].

Definition is_uart_write {float} (e : Event float) : bool :=
  match e with UartWrite _ => true | _ => false end.

(** The events of a trace that are not writes to the instrument link. *)
Definition local_events {float} (trace : list (Event float)) : list (Event float) :=
  List.filter (λ e, negb (is_uart_write e)) trace.

(** The bytes other than carriage returns. *)
Definition without_cr (bytes : list ascii) : list ascii :=
  List.filter (λ c, negb (Ascii.eqb c Str.CR)) bytes.

(** A string that holds neither a carriage return nor a line feed. *)
Definition terminator_free (s : string) : Prop :=
  Forall (λ c, c ≠ Str.CR ∧ c ≠ Str.LF) (Str.bytes s).

(** A line as it travels on the link: its bytes, then CR LF. *)
Definition wire (line : string) : list ascii :=
  Str.bytes (line +:+ Str.CRLF).

Fixpoint wire_all (lines : list string) : list ascii :=
  match lines with
  | [] => []
  | line :: rest => wire line ++ wire_all rest
  end.

Definition is_loop_call (c : Call) : bool :=
  match c with call_loop _ _ _ => true | _ => false end.

(** The command of the last [set_function] among the calls, if any. *)
Fixpoint last_set_function (calls : list Call) : option string :=
  match calls with
  | [] => None
  | c :: rest =>
      match last_set_function rest with
      | Some cmd => Some cmd
      | None =>
          match c with
          | call_set_function cmd => Some cmd
          | _ => None
          end
      end
  end.

(** The clock readings, among those of successive calls of [loop] with
    nothing received, at which a query was written. *)
Fixpoint poll_times {float} (stof : string → option float) (ts : list Z) (st : SCPIDMM) : list Z :=
  match ts with
  | [] => []
  | t :: rest =>
      let r := loop stof [] t t st in
      match uart_tx (trace_of r) with
      | [] => poll_times stof rest (state_of r)
      | _ :: _ => t :: poll_times stof rest (state_of r)
      end
  end.

(** Clock readings that do not go back and stay below [2 ^ 32], from [low]
    on. *)
Fixpoint ascending (low : Z) (ts : list Z) : Prop :=
  match ts with
  | [] => True
  | t :: rest => low ≤ t ∧ t < 2 ^ 32 ∧ ascending t rest
  end.

(** Readings each at least one query interval after the one before,
    [previous] being the one before the first. *)
Fixpoint spaced (previous : Z) (ts : list Z) : Prop :=
  match ts with
  | [] => True
  | t :: rest => previous + query_interval_ ≤ t ∧ spaced t rest
  end.

(** A string written to the link ends with CR LF. *)
Definition terminated (data : string) : Prop :=
  ∃ body, data = body +:+ Str.CRLF.

(** ** Properties *)

Lemma string_app_cons (c : ascii) (s1 s2 : string) :
  String c s1 +:+ s2 = String c (s1 +:+ s2).
Proof. reflexivity. Qed.

Lemma string_app_nil_r (s : string) : s +:+ "" = s.
Proof.
  induction s as [|c s IH]; [done|]. by rewrite string_app_cons, IH.
Qed.

Lemma string_app_assoc (s1 s2 s3 : string) :
  (s1 +:+ s2) +:+ s3 = s1 +:+ (s2 +:+ s3).
Proof.
  induction s1 as [|c s1 IH]; [done|]. by rewrite !string_app_cons, IH.
Qed.

Lemma string_length_app (s1 s2 : string) :
  String.length (s1 +:+ s2) = (String.length s1 + String.length s2)%nat.
Proof.
  induction s1 as [|c s1 IH]; [done|]. rewrite string_app_cons. simpl. by rewrite IH.
Qed.

(** Unfolding of the monad's plumbing. *)
Ltac comp_unfold :=
  unfold skip, write_str, publish_if_bound, gets, modify, emit,
    state_of, trace_of, mbind, mret, Comp_bind, Comp_ret in *.

Lemma with_rx_buffer_same (st : SCPIDMM) :
  with_rx_buffer_ (rx_buffer_ st) st = st.
Proof. by destruct st. Qed.

Lemma string_empty_iff (s : string) : Str.empty s = true ↔ s = "".
Proof. destruct s; simpl; split; congruence. Qed.

Lemma string_empty_false (s : string) : Str.empty s = false ↔ s ≠ "".
Proof. destruct s; simpl; split; congruence. Qed.

Lemma string_length_pos (s : string) : (0 <? String.length s)%nat = negb (Str.empty s).
Proof. by destruct s. Qed.

Section Properties.

Context {float : Type}.
Variable stof : string → option float.

Lemma publish_if_bound_run (sensor : option addr) (ev : addr → Event float) (st : SCPIDMM) :
  publish_if_bound sensor ev st = (tt, st, sink_trace sensor ev).
Proof. by destruct sensor. Qed.

(** [handle_response_] by cases. *)
Lemma handle_response_run (response : string) (st : SCPIDMM) :
  handle_response_ stof response st =
    if Str.empty response then (tt, st, [])
    else if waiting_for_idn_ st then
      (tt, with_waiting_for_idn_ false st,
       sink_trace (idn_sensor st) (λ obj, IdnPublish obj response))
    else match stof response with
         | Some value =>
             (tt, st, sink_trace (value_sensor st) (λ obj, ValuePublish obj value))
         | None =>
             (tt, st,
              [LogWarning "scpi_dmm" "Non-numeric response: %s" (Str.c_str response)])
         end.
Proof.
  unfold handle_response_, parse_numeric_response_.
  destruct (Str.empty response); [done|].
  comp_unfold.
  destruct (waiting_for_idn_ st) eqn:Hw; simpl; rewrite ?Hw.
  - destruct (idn_sensor st); simpl; by rewrite ?app_nil_r.
  - destruct (stof response); [|done].
    by destruct (value_sensor st).
Qed.

Lemma bind_run {A B} (m : Comp float A) (f : A → Comp float B) (st : SCPIDMM) :
  (m ≫= f) st =
    (fst (fst (f (fst (fst (m st))) (state_of (m st)))),
     state_of (f (fst (fst (m st))) (state_of (m st))),
     trace_of (m st) ++ trace_of (f (fst (fst (m st))) (state_of (m st)))).
Proof.
  unfold mbind, Comp_bind, state_of, trace_of.
  destruct (m st) as [[a st1] t1]; simpl.
  by destruct (f a st1) as [[b st2] t2].
Qed.

Lemma handle_response_state (response : string) (st : SCPIDMM) :
  state_of (handle_response_ stof response st) =
    if negb (Str.empty response) && waiting_for_idn_ st
    then with_waiting_for_idn_ false st else st.
Proof.
  rewrite handle_response_run.
  destruct (Str.empty response); [done|].
  destruct (waiting_for_idn_ st); [done|].
  by destruct (stof response).
Qed.

(** The handler neither reads nor writes the receive buffer. *)
Lemma handle_response_buffer (buffer response : string) (st : SCPIDMM) :
  handle_response_ stof response (with_rx_buffer_ buffer st) =
    (tt, with_rx_buffer_ buffer (state_of (handle_response_ stof response st)),
     trace_of (handle_response_ stof response st)).
Proof.
  rewrite !handle_response_run.
  destruct (Str.empty response); [done|]. simpl.
  destruct (waiting_for_idn_ st); [done|].
  by destruct (stof response).
Qed.

Lemma handle_all_buffer (buffer : string) (lines : list string) (st : SCPIDMM) :
  handle_all stof lines (with_rx_buffer_ buffer st) =
    (tt, with_rx_buffer_ buffer (state_of (handle_all stof lines st)),
     trace_of (handle_all stof lines st)).
Proof.
  revert st; induction lines as [|line rest IH]; intros st; [done|].
  simpl. rewrite !bind_run, handle_response_buffer.
  unfold state_of, trace_of in *; cbn [fst snd].
  by rewrite IH.
Qed.

(** The byte step of [loop] against the Line Framer's [feed]. *)
Lemma loop_byte_feed (c : ascii) (st : SCPIDMM) :
  loop_byte stof c st =
    match Framer.feed (rx_buffer_ st) c with
    | (Some line, buffer) =>
        (tt, with_rx_buffer_ buffer (state_of (handle_response_ stof line st)),
         trace_of (handle_response_ stof line st))
    | (None, buffer) => (tt, with_rx_buffer_ buffer st, [])
    end.
Proof.
  unfold loop_byte, Framer.feed.
  destruct (Ascii.eqb c Str.LF).
  - unfold mbind, Comp_bind, gets, modify, skip, mret, Comp_ret, state_of, trace_of.
    rewrite string_length_pos.
    destruct (Str.empty (rx_buffer_ st)); simpl.
    + by rewrite with_rx_buffer_same.
    + destruct (handle_response_ stof (rx_buffer_ st) st) as [[[] st1] t1]; simpl.
      by rewrite app_nil_r.
  - destruct (Ascii.eqb c Str.CR); simpl.
    + unfold skip, mret, Comp_ret. by rewrite with_rx_buffer_same.
    + reflexivity.
Qed.

(** [loop_rx] hands the framed lines to the handler, in order, and keeps
    what the framer leaves in the buffer. *)
Lemma loop_rx_frame (bytes : list ascii) (st : SCPIDMM) :
  loop_rx stof bytes st =
    (tt,
     with_rx_buffer_ (snd (Framer.frame (rx_buffer_ st) bytes))
       (state_of (handle_all stof (fst (Framer.frame (rx_buffer_ st) bytes)) st)),
     trace_of (handle_all stof (fst (Framer.frame (rx_buffer_ st) bytes)) st)).
Proof.
  revert st; induction bytes as [|c rest IH]; intros st.
  - simpl. by rewrite with_rx_buffer_same.
  - simpl. rewrite bind_run, loop_byte_feed.
    destruct (Framer.feed (rx_buffer_ st) c) as [[line|] buffer].
    + unfold state_of, trace_of in *; cbn [fst snd].
      rewrite IH. cbn [rx_buffer_ with_rx_buffer_].
      destruct (Framer.frame buffer rest) as [lines final] eqn:Hf.
      cbn [fst snd handle_all]. rewrite bind_run.
      unfold state_of, trace_of; cbn [fst snd].
      pose proof (handle_all_buffer buffer lines (handle_response_ stof line st).1.2) as Hb.
      unfold state_of, trace_of in Hb. rewrite Hb. cbn [fst snd].
      by destruct (handle_all stof lines (handle_response_ stof line st).1.2) as [[[] ?] ?].
    + unfold state_of, trace_of in *; cbn [fst snd].
      rewrite IH. cbn [rx_buffer_ with_rx_buffer_].
      pose proof (handle_all_buffer buffer (Framer.frame buffer rest).1 st) as Hb.
      unfold state_of, trace_of in Hb. rewrite Hb. cbn [fst snd].
      reflexivity.
Qed.

Lemma handle_all_cons (line : string) (rest : list string) (st : SCPIDMM) :
  handle_all stof (line :: rest) st =
    (tt,
     state_of (handle_all stof rest (state_of (handle_response_ stof line st))),
     trace_of (handle_response_ stof line st) ++
     trace_of (handle_all stof rest (state_of (handle_response_ stof line st)))).
Proof.
  simpl. rewrite bind_run.
  by destruct (handle_all stof rest (state_of (handle_response_ stof line st))) as [[[] ?] ?].
Qed.

(** Once the flag is down, no response raises it or reaches the
    identification sink. *)
Lemma handle_all_settled (lines : list string) (st : SCPIDMM) :
  waiting_for_idn_ st = false →
  state_of (handle_all stof lines st) = st ∧
  List.filter is_idn_publication (trace_of (handle_all stof lines st)) = [].
Proof.
  intros Hw. induction lines as [|line rest [IHs IHt]]; [done|].
  rewrite handle_all_cons, handle_response_run, Hw.
  unfold state_of, trace_of in *; cbn [fst snd].
  destruct (Str.empty line); cbn [fst snd]; [done|].
  destruct (stof line); cbn [fst snd].
  - rewrite IHs, List.filter_app, IHt. split; [done|].
    by destruct (value_sensor st).
  - rewrite IHs. simpl. by rewrite IHt.
Qed.

(** While the flag is up, the first non-empty response takes the
    identification branch, and it is the only one that does. *)
Lemma handle_all_first (lines : list string) (st : SCPIDMM) :
  waiting_for_idn_ st = true →
  state_of (handle_all stof lines st) =
    match first_nonempty lines with
    | Some _ => with_waiting_for_idn_ false st
    | None => st
    end ∧
  List.filter is_idn_publication (trace_of (handle_all stof lines st)) =
    match first_nonempty lines with
    | Some line => sink_trace (idn_sensor st) (λ obj, IdnPublish obj line)
    | None => []
    end.
Proof.
  intros Hw. induction lines as [|line rest [IHs IHt]]; [done|].
  rewrite handle_all_cons, handle_response_run, Hw.
  unfold first_nonempty in *. simpl.
  destruct (Str.empty line); simpl.
  - unfold state_of, trace_of in *; cbn [fst snd]. by rewrite IHs, IHt.
  - destruct (handle_all_settled rest (with_waiting_for_idn_ false st) eq_refl)
      as [Hs Ht].
    unfold state_of, trace_of in *; cbn [fst snd].
    rewrite Hs, List.filter_app, Ht, app_nil_r. split; [done|].
    by destruct (idn_sensor st).
Qed.

Lemma query_measurement_run (st : SCPIDMM) :
  @query_measurement_ float st =
    (tt, st,
     [UartWrite (table_query default_DeviceCommands (current_function_ st) +:+ Str.CRLF)]).
Proof.
  unfold query_measurement_, mbind, Comp_bind, gets.
  by destruct (current_function_ st).
Qed.

Lemma loop_poll_run (now now' : Z) (st : SCPIDMM) :
  @loop_poll float now now' st =
    if query_interval_ <=? (now - last_query_ st) mod 2 ^ 32
    then (tt, with_last_query_ now' st,
          [UartWrite (table_query default_DeviceCommands (current_function_ st) +:+ Str.CRLF)])
    else (tt, st, []).
Proof.
  unfold loop_poll, mbind, Comp_bind, gets, modify, skip, mret, Comp_ret.
  destruct (query_interval_ <=? (now - last_query_ st) mod 2 ^ 32); [|done].
  by rewrite query_measurement_run.
Qed.

Lemma loop_run (available : list ascii) (now now' : Z) (st : SCPIDMM) :
  loop stof available now now' st =
    (tt,
     state_of (@loop_poll float now now' (state_of (loop_rx stof available st))),
     trace_of (loop_rx stof available st) ++
     trace_of (@loop_poll float now now' (state_of (loop_rx stof available st)))).
Proof.
  unfold loop. rewrite bind_run.
  by destruct (@loop_poll float now now' (state_of (loop_rx stof available st))) as [[[] ?] ?].
Qed.

Lemma handle_all_shape (lines : list string) (st : SCPIDMM) :
  ∃ w, state_of (handle_all stof lines st) = with_waiting_for_idn_ w st ∧
       (waiting_for_idn_ st = false → w = false).
Proof.
  destruct (waiting_for_idn_ st) eqn:Hw.
  - destruct (handle_all_first lines st Hw) as [Hs _].
    destruct (first_nonempty lines).
    + exists false. by rewrite Hs.
    + exists true. rewrite Hs. split; [|done]. by destruct st; simpl in *; subst.
  - destruct (handle_all_settled lines st Hw) as [Hs _].
    exists false. rewrite Hs. split; [|done]. by destruct st; simpl in *; subst.
Qed.

(** A call of [loop] writes three members at most. *)
Lemma loop_shape (available : list ascii) (now now' : Z) (st : SCPIDMM) :
  ∃ buffer w q,
    state_of (loop stof available now now' st) =
      with_last_query_ q (with_rx_buffer_ buffer (with_waiting_for_idn_ w st)) ∧
    (waiting_for_idn_ st = false → w = false).
Proof.
  rewrite loop_run, loop_poll_run, loop_rx_frame.
  destruct (handle_all_shape (Framer.frame (rx_buffer_ st) available).1 st)
    as (w & Hs & Hw).
  unfold state_of in *; cbn [fst snd]. rewrite Hs.
  exists (Framer.frame (rx_buffer_ st) available).2, w.
  match goal with |- context [if ?b then _ else _] => destruct b end;
    cbn [fst snd].
  - by exists now'.
  - exists (last_query_ st). by destruct st.
Qed.

Lemma uart_tx_app (t1 t2 : list (Event float)) :
  uart_tx (t1 ++ t2) = uart_tx t1 ++ uart_tx t2.
Proof.
  induction t1 as [|e t1 IH]; [done|].
  destruct e; simpl; by rewrite ?IH.
Qed.

(** Responses never cause a write to the instrument link. *)
Lemma handle_all_uart_tx (lines : list string) (st : SCPIDMM) :
  uart_tx (trace_of (handle_all stof lines st)) = [].
Proof.
  revert st; induction lines as [|line rest IH]; intros st; [done|].
  rewrite handle_all_cons.
  unfold trace_of in *; cbn [fst snd]. rewrite uart_tx_app, IH, app_nil_r.
  rewrite handle_response_run.
  destruct (Str.empty line); [done|].
  destruct (waiting_for_idn_ st).
  - by destruct (idn_sensor st).
  - destruct (stof line); [|done]. by destruct (value_sensor st).
Qed.

Lemma loop_idn_publications (available : list ascii) (now now' : Z) (st : SCPIDMM) :
  List.filter is_idn_publication (trace_of (loop stof available now now' st)) =
  List.filter is_idn_publication
    (trace_of (handle_all stof (Framer.frame (rx_buffer_ st) available).1 st)).
Proof.
  rewrite loop_run, loop_poll_run, loop_rx_frame.
  unfold trace_of, state_of; cbn [fst snd].
  rewrite List.filter_app.
  match goal with |- context [if ?b then _ else _] => destruct b end;
    cbn [fst snd]; simpl; by rewrite app_nil_r.
Qed.

(** The members no call writes, the flag that only goes down, and the
    identification sink that stays silent while unbound. *)
Lemma exec_frame (c : Call) (st : SCPIDMM) :
  idn_sensor (state_of (exec stof c st)) = idn_sensor st ∧
  status_sensor (state_of (exec stof c st)) = status_sensor st ∧
  (waiting_for_idn_ st = false →
     waiting_for_idn_ (state_of (exec stof c st)) = false) ∧
  (idn_sensor st = None →
     List.filter is_idn_publication (trace_of (exec stof c st)) = []).
Proof.
  destruct c as [s|s|s|s|s|s|s|s|s| |available now now'|cmd|function| |response];
    cbn [exec].
  1-6: done.
  1-3: by destruct s.
  - done.
  - destruct (loop_shape available now now' st) as (buffer & w & q & Hs & Hw).
    rewrite Hs, loop_idn_publications. cbn.
    repeat split; try done.
    intros Hnone. destruct (waiting_for_idn_ st) eqn:Hwait.
    + destruct (handle_all_first (Framer.frame (rx_buffer_ st) available).1 st Hwait)
        as [_ Ht].
      rewrite Ht, Hnone. by destruct (first_nonempty _).
    + by destruct (handle_all_settled (Framer.frame (rx_buffer_ st) available).1 st Hwait).
  - done.
  - unfold set_function, send_command, state_of, trace_of. comp_unfold. simpl.
    by destruct (function_sensor st).
  - by rewrite query_measurement_run.
  - rewrite handle_response_run.
    destruct (Str.empty response); [done|].
    destruct (waiting_for_idn_ st) eqn:Hwait.
    + cbn. repeat split; try done. by intros ->.
    + by destruct (stof response); [destruct (value_sensor st)|].
Qed.

Lemma exec_all_frame (calls : list Call) (st : SCPIDMM) :
  idn_sensor (state_of (exec_all stof calls st)) = idn_sensor st ∧
  status_sensor (state_of (exec_all stof calls st)) = status_sensor st ∧
  (waiting_for_idn_ st = false →
     waiting_for_idn_ (state_of (exec_all stof calls st)) = false) ∧
  (idn_sensor st = None →
     List.filter is_idn_publication (trace_of (exec_all stof calls st)) = []).
Proof.
  revert st; induction calls as [|c rest IH]; intros st; [done|].
  cbn [exec_all]. rewrite bind_run.
  destruct (exec_frame c st) as (Hi & Hs & Hw & Ht).
  destruct (IH (state_of (exec stof c st))) as (Hi' & Hs' & Hw' & Ht').
  unfold state_of, trace_of in *; cbn [fst snd].
  rewrite Hi', Hs', Hi, Hs, List.filter_app.
  repeat split; try done.
  - intros Hf. by apply Hw', Hw.
  - intros Hn. rewrite Ht, Ht'; [done|congruence|done].
Qed.

(** The framer never completes an empty line. *)
Lemma frame_nonempty (bytes : list ascii) (buffer : string) :
  Forall (λ line, Str.empty line = false) (Framer.frame buffer bytes).1.
Proof.
  revert buffer; induction bytes as [|c rest IH]; intros buffer; simpl.
  - constructor.
  - unfold Framer.feed.
    destruct (Ascii.eqb c Str.LF).
    + destruct (Str.empty buffer) eqn:He.
      * apply IH.
      * specialize (IH ""). destruct (Framer.frame "" rest). by constructor.
    + destruct (Ascii.eqb c Str.CR); apply IH.
Qed.

(** C1 (as amended).  The awaiting-identification flag starts true.  While
    it is true, a non-empty response, whatever its content, takes the
    identification branch: it goes to the identification sink when one is
    bound, to no other sink and to no log, and the flag is cleared.  No
    sequence of calls sets the flag again.  Hence, of the responses handled
    one after the other, exactly the first non-empty one takes that branch,
    and so does the first line a call of [loop] completes. *)
Theorem first_response_is_identification :
  waiting_for_idn_ SCPIDMM_init = true ∧
  (∀ (st : SCPIDMM) (line : string),
     waiting_for_idn_ st = true → line ≠ "" →
     handle_response_ stof line st =
       (tt, with_waiting_for_idn_ false st,
        sink_trace (idn_sensor st) (λ obj, IdnPublish obj line))) ∧
  (∀ (st : SCPIDMM) (calls : list Call),
     waiting_for_idn_ st = false →
     waiting_for_idn_ (state_of (exec_all stof calls st)) = false) ∧
  (∀ (st : SCPIDMM) (lines : list string),
     waiting_for_idn_ st = true →
     List.filter is_idn_publication (trace_of (handle_all stof lines st)) =
       match first_nonempty lines with
       | Some line => sink_trace (idn_sensor st) (λ obj, IdnPublish obj line)
       | None => []
       end ∧
     waiting_for_idn_ (state_of (handle_all stof lines st)) =
       match first_nonempty lines with Some _ => false | None => true end) ∧
  (∀ (st : SCPIDMM) (available : list ascii) (now now' : Z)
      (line : string) (lines : list string) (final : string),
     waiting_for_idn_ st = true →
     Framer.frame (rx_buffer_ st) available = (line :: lines, final) →
     List.filter is_idn_publication (trace_of (loop stof available now now' st)) =
       sink_trace (idn_sensor st) (λ obj, IdnPublish obj line) ∧
     waiting_for_idn_ (state_of (loop stof available now now' st)) = false).
Proof.
  split; [done|]. split; [|split; [|split]].
  - intros st line Hw Hne. rewrite handle_response_run, Hw.
    apply string_empty_false in Hne. by rewrite Hne.
  - intros st calls Hw. by apply exec_all_frame.
  - intros st lines Hw.
    destruct (handle_all_first lines st Hw) as [Hs Ht].
    rewrite Hs, Ht. split; [done|]. by destruct (first_nonempty lines).
  - intros st available now now' line lines final Hw Hf.
    pose proof (frame_nonempty available (rx_buffer_ st)) as Hne.
    rewrite Hf in Hne. cbn [fst] in Hne. inversion Hne as [|? ? Hline _]; subst.
    destruct (handle_all_first (line :: lines) st Hw) as [Hs Ht].
    unfold first_nonempty in Hs, Ht. cbn [List.find] in Hs, Ht.
    rewrite Hline in Hs, Ht. cbn [negb] in Hs, Ht.
    rewrite loop_idn_publications, Hf. cbn [fst]. split; [done|].
    rewrite loop_run, loop_poll_run, loop_rx_frame, Hf.
    unfold state_of in *; cbn [fst snd]. rewrite Hs.
    by match goal with |- context [if ?b then _ else _] => destruct b end.
Qed.

(** C3 (as amended).  With the flag down, a non-empty response that
    [std::stof] reads as a number is published, with exactly that value, to
    the measurement-value sink when one is bound, and nothing else happens;
    a response [std::stof] rejects is only logged (the text up to its first
    NUL, as "%s" prints it), no sink is touched, and every member of the
    component keeps its value.  Either way the handler returns and the
    responses that follow are handled as usual.  With [std::stof] over
    [strtof], "5.123456E-03" goes to a bound value sensor as the binary32
    number nearest to 0.005123456, which is 11002538 * 2 ^ -31 and not that
    decimal itself, and "ERROR" is logged. *)
Theorem handle_response_numeric :
  (∀ (st : SCPIDMM) (line : string) (value : float),
     waiting_for_idn_ st = false → line ≠ "" → stof line = Some value →
     handle_response_ stof line st =
       (tt, st, sink_trace (value_sensor st) (λ obj, ValuePublish obj value))) ∧
  (∀ (st : SCPIDMM) (line : string),
     waiting_for_idn_ st = false → line ≠ "" → stof line = None →
     handle_response_ stof line st =
       (tt, st,
        [LogWarning "scpi_dmm" "Non-numeric response: %s" (Str.c_str line)]) ∧
     List.filter is_publication (trace_of (handle_response_ stof line st)) = [] ∧
     ∀ rest : list string,
       handle_all stof (line :: rest) st =
         (tt, state_of (handle_all stof rest st),
          LogWarning "scpi_dmm" "Non-numeric response: %s" (Str.c_str line) ::
            trace_of (handle_all stof rest st))) ∧
  (∀ sensor : addr,
     handle_response_ Strtof.stof "5.123456E-03" (running sensor) =
       (tt, running sensor,
        [ValuePublish sensor (S754_finite false 11002538 (-31))]) ∧
     Strtof.round false 5123456 1000000000 = S754_finite false 11002538 (-31) ∧
     Strtof.exact 5123456 1000000000 11002538 (-31) = false) ∧
  (∀ st : SCPIDMM,
     waiting_for_idn_ st = false →
     handle_response_ Strtof.stof "ERROR" st =
       (tt, st, [LogWarning "scpi_dmm" "Non-numeric response: %s" "ERROR"])).
Proof.
  split; [|split; [|split]].
  - intros st line value Hw Hne Hv. apply string_empty_false in Hne.
    by rewrite handle_response_run, Hne, Hw, Hv.
  - intros st line Hw Hne Hv. apply string_empty_false in Hne.
    assert (handle_response_ stof line st =
              (tt, st,
               [LogWarning "scpi_dmm" "Non-numeric response: %s" (Str.c_str line)]))
      as Hr.
    { by rewrite handle_response_run, Hne, Hw, Hv. }
    split; [done|]. split; [by rewrite Hr|].
    intros rest. by rewrite handle_all_cons, Hr.
  - intros sensor. repeat split; by vm_compute.
  - intros st Hw. unfold handle_response_, parse_numeric_response_.
    cbn [Str.empty]. unfold mbind, Comp_bind, gets. rewrite Hw.
    replace (Strtof.stof "ERROR") with (@None spec_float) by (by vm_compute).
    reflexivity.
Qed.

(** C10.  [set_status_sensor] and [set_idn_sensor] assign the member to
    itself: whatever the argument, the component is left as it was.  So
    after any sequence of calls on a freshly constructed component both
    members are still null and nothing has been published through the
    identification sink (the header publishes nothing through the status
    sink anywhere). *)
Theorem sensor_setters_keep_member :
  (∀ (st : SCPIDMM) (sensor : option addr),
     @set_status_sensor float sensor st = (tt, st, [])) ∧
  (∀ (st : SCPIDMM) (sensor : option addr),
     @set_idn_sensor float sensor st = (tt, st, [])) ∧
  (∀ calls : list Call,
     idn_sensor (state_of (exec_all stof calls SCPIDMM_init)) = None ∧
     status_sensor (state_of (exec_all stof calls SCPIDMM_init)) = None ∧
     List.filter is_idn_publication (trace_of (exec_all stof calls SCPIDMM_init)) = []).
Proof.
  split; [by intros [] ?|]. split; [by intros [] ?|].
  intros calls.
  destruct (exec_all_frame calls SCPIDMM_init) as (Hi & Hs & _ & Ht).
  rewrite Hi, Hs. repeat split; try done. by apply Ht.
Qed.

(** Without a line feed nothing is completed and nothing is dropped. *)
Lemma frame_no_line_feed (bytes : list ascii) (buffer : string) :
  Forall (λ c, c ≠ Str.LF) bytes →
  Framer.frame buffer bytes = ([], buffer +:+ kept bytes).
Proof.
  intros Hb; revert buffer; induction Hb as [|c rest Hc _ IH]; intros buffer.
  - simpl. by rewrite string_app_nil_r.
  - simpl. unfold Framer.feed.
    apply Ascii.eqb_neq in Hc. rewrite Hc.
    destruct (Ascii.eqb c Str.CR); [apply IH|].
    rewrite IH. unfold Str.push_back. by rewrite string_app_assoc.
Qed.

Lemma loop_rx_buffer (available : list ascii) (st : SCPIDMM) :
  rx_buffer_ (state_of (loop_rx stof available st)) =
    (Framer.frame (rx_buffer_ st) available).2.
Proof. by rewrite loop_rx_frame. Qed.

Lemma loop_buffer (available : list ascii) (now now' : Z) (st : SCPIDMM) :
  rx_buffer_ (state_of (loop stof available now now' st)) =
    (Framer.frame (rx_buffer_ st) available).2.
Proof.
  rewrite loop_run, loop_poll_run, <- loop_rx_buffer.
  unfold state_of; cbn [fst snd].
  by match goal with |- context [if ?b then _ else _] => destruct b end.
Qed.

(** C2.  The byte step of [loop]: a carriage return changes nothing; a
    line feed on a non-empty buffer hands the buffer, as one line, to the
    response handler and then clears it; a line feed on an empty buffer
    does nothing; any other byte is appended to the buffer.  The bytes of
    "5.123456E-03" followed by CR LF, fed to an empty buffer, make exactly
    the one line "5.123456E-03" and leave the buffer empty. *)
Theorem loop_byte_line_framing (st : SCPIDMM) (c : ascii) :
  (c = Str.CR → loop_byte stof c st = (tt, st, [])) ∧
  (c = Str.LF → rx_buffer_ st ≠ "" →
     loop_byte stof c st =
       (tt,
        with_rx_buffer_ "" (state_of (handle_response_ stof (rx_buffer_ st) st)),
        trace_of (handle_response_ stof (rx_buffer_ st) st))) ∧
  (c = Str.LF → rx_buffer_ st = "" → loop_byte stof c st = (tt, st, [])) ∧
  (c ≠ Str.CR → c ≠ Str.LF →
     loop_byte stof c st =
       (tt, with_rx_buffer_ (Str.push_back (rx_buffer_ st) c) st, [])) ∧
  (rx_buffer_ st = "" →
     Framer.frame (rx_buffer_ st) (Str.bytes ("5.123456E-03" +:+ Str.CRLF)) =
       (["5.123456E-03"], "") ∧
     loop_rx stof (Str.bytes ("5.123456E-03" +:+ Str.CRLF)) st =
       (tt,
        with_rx_buffer_ "" (state_of (handle_response_ stof "5.123456E-03" st)),
        trace_of (handle_response_ stof "5.123456E-03" st))).
Proof.
  rewrite loop_byte_feed. unfold Framer.feed.
  split; [|split; [|split; [|split]]].
  - intros ->. cbn. by rewrite with_rx_buffer_same.
  - intros -> Hne. apply string_empty_false in Hne. by rewrite Hne.
  - intros -> He. rewrite He. cbn. by rewrite <- He, with_rx_buffer_same.
  - intros Hcr Hlf. apply Ascii.eqb_neq in Hcr, Hlf. by rewrite Hcr, Hlf.
  - intros He. rewrite loop_rx_frame, He.
    split; [done|].
    replace (Framer.frame "" (Str.bytes ("5.123456E-03" +:+ Str.CRLF)))
      with (["5.123456E-03"], "") by done.
    cbn [fst snd]. rewrite handle_all_cons.
    unfold state_of, trace_of; cbn [fst snd handle_all].
    by rewrite app_nil_r.
Qed.

Lemma frame_app (bytes1 bytes2 : list ascii) (buffer : string) :
  (Framer.frame buffer (bytes1 ++ bytes2)).2 =
  (Framer.frame (Framer.frame buffer bytes1).2 bytes2).2.
Proof.
  revert buffer; induction bytes1 as [|c rest IH]; intros buffer; [done|].
  simpl. destruct (Framer.feed buffer c) as [[line|] buffer']; [|apply IH].
  specialize (IH buffer').
  destruct (Framer.frame buffer' (rest ++ bytes2)), (Framer.frame buffer' rest).
  apply IH.
Qed.

Lemma exec_buffer (c : Call) (st : SCPIDMM) :
  rx_buffer_ (state_of (exec stof c st)) =
    (Framer.frame (rx_buffer_ st) (received [c])).2.
Proof.
  destruct c as [s|s|s|s|s|s|s|s|s| |available now now'|cmd|function| |response];
    cbn [exec received].
  1-6: done.
  1-3: by destruct s.
  - done.
  - by rewrite loop_buffer, app_nil_r.
  - done.
  - unfold set_function, send_command, state_of. comp_unfold. simpl.
    by destruct (function_sensor st).
  - by rewrite query_measurement_run.
  - rewrite handle_response_state.
    by destruct (negb (Str.empty response) && waiting_for_idn_ st).
Qed.

(** Whatever is called, the buffer holds what the framer leaves of the
    bytes received so far. *)
Lemma exec_all_buffer (calls : list Call) (st : SCPIDMM) :
  rx_buffer_ (state_of (exec_all stof calls st)) =
    (Framer.frame (rx_buffer_ st) (received calls)).2.
Proof.
  revert st; induction calls as [|c rest IH]; intros st; [done|].
  cbn [exec_all]. rewrite bind_run.
  unfold state_of in *; cbn [fst snd]. rewrite IH.
  pose proof (exec_buffer c st) as Hc. unfold state_of in Hc. rewrite Hc.
  replace (received (c :: rest)) with (received [c] ++ received rest).
  - by rewrite frame_app.
  - destruct c; simpl; by rewrite ?app_nil_r.
Qed.

Lemma kept_repeat_length (c : ascii) (n : nat) :
  c ≠ Str.CR → String.length (kept (repeat c n)) = n.
Proof.
  intros Hc. apply Ascii.eqb_neq in Hc.
  induction n as [|n IH]; [done|]. simpl. rewrite Hc. simpl. by rewrite IH.
Qed.

(** C9.  The receive buffer is cleared by a line feed and by nothing else:
    a line feed leaves it empty, the line it held having gone to the
    response handler; any other byte leaves what was there and adds itself
    (a carriage return adds nothing).  Over any sequence of calls, as long
    as no line feed arrives, the buffer is what it was followed by every
    byte received since, carriage returns apart: nothing is discarded
    between calls of [loop]; in general it is what the Line Framer holds
    after the bytes received so far.  No length bound is applied: the buffer
    exceeds any given length on a long enough input without line feed. *)
Theorem rx_buffer_only_accumulates :
  (∀ (st : SCPIDMM) (c : ascii),
     c = Str.LF → rx_buffer_ (state_of (loop_byte stof c st)) = "") ∧
  (∀ (st : SCPIDMM) (c : ascii),
     c = Str.LF → rx_buffer_ st ≠ "" →
     trace_of (loop_byte stof c st) =
       trace_of (handle_response_ stof (rx_buffer_ st) st)) ∧
  (∀ (st : SCPIDMM) (c : ascii),
     c ≠ Str.LF →
     rx_buffer_ (state_of (loop_byte stof c st)) = rx_buffer_ st +:+ kept [c]) ∧
  (∀ (st : SCPIDMM) (calls : list Call),
     Forall (λ c, c ≠ Str.LF) (received calls) →
     rx_buffer_ (state_of (exec_all stof calls st)) =
       rx_buffer_ st +:+ kept (received calls)) ∧
  (∀ (st : SCPIDMM) (calls : list Call),
     rx_buffer_ (state_of (exec_all stof calls st)) =
       (Framer.frame (rx_buffer_ st) (received calls)).2) ∧
  (∀ (st : SCPIDMM) (bound : nat),
     ∃ available : list ascii,
       (bound < String.length
                  (rx_buffer_ (state_of (loop stof available 0 0 st))))%nat).
Proof.
  split; [|split; [|split; [|split; [|split]]]].
  - intros st c ->. rewrite loop_byte_feed. unfold Framer.feed. cbn.
    destruct (Str.empty (rx_buffer_ st)) eqn:He; [|done].
    by apply string_empty_iff in He.
  - intros st c -> Hne. rewrite loop_byte_feed. unfold Framer.feed. cbn.
    apply string_empty_false in Hne. by rewrite Hne.
  - intros st c Hc. rewrite loop_byte_feed. unfold Framer.feed.
    apply Ascii.eqb_neq in Hc. rewrite Hc. cbn [kept].
    destruct (Ascii.eqb c Str.CR); cbn.
    + by rewrite string_app_nil_r.
    + done.
  - intros st calls Hb. by rewrite exec_all_buffer, frame_no_line_feed.
  - intros st calls. apply exec_all_buffer.
  - intros st bound. exists (repeat "A"%char (S bound)).
    rewrite loop_buffer, frame_no_line_feed.
    + cbn [snd]. rewrite string_length_app, kept_repeat_length; [lia|done].
    + apply Forall_forall. intros c Hc. apply list_elem_of_In, repeat_spec in Hc. by subst.
Qed.

(** What a call of [loop] writes to the instrument link and what it does
    to the members the polling depends on. *)
Lemma loop_poll_effect (available : list ascii) (now now' : Z) (st : SCPIDMM) :
  uart_tx (trace_of (loop stof available now now' st)) =
    (if query_interval_ <=? (now - last_query_ st) mod 2 ^ 32
     then [table_query default_DeviceCommands (current_function_ st) +:+ Str.CRLF]
     else []) ∧
  last_query_ (state_of (loop stof available now now' st)) =
    (if query_interval_ <=? (now - last_query_ st) mod 2 ^ 32
     then now' else last_query_ st) ∧
  current_function_ (state_of (loop stof available now now' st)) =
    current_function_ st.
Proof.
  rewrite loop_run, loop_poll_run, loop_rx_frame.
  destruct (handle_all_shape (Framer.frame (rx_buffer_ st) available).1 st)
    as (w & Hs & _).
  pose proof (handle_all_uart_tx (Framer.frame (rx_buffer_ st) available).1 st) as Hu.
  unfold state_of, trace_of in *; cbn [fst snd].
  rewrite uart_tx_app, Hu, Hs. cbn.
  by destruct (query_interval_ <=? (now - last_query_ st) mod 2 ^ 32).
Qed.

Lemma ticks_due (ts : list Z) (st : SCPIDMM) :
  ticks stof ts st =
    map (λ d : bool,
           if d
           then [table_query default_DeviceCommands (current_function_ st) +:+ Str.CRLF]
           else [])
        (due ts (last_query_ st)).
Proof.
  revert st; induction ts as [|t rest IH]; intros st; [done|].
  cbn [ticks due map].
  destruct (loop_poll_effect [] t t st) as (Hu & Hl & Hf).
  by rewrite IH, Hu, Hl, Hf.
Qed.

(** C5.  The interval is 100 ms.  In a call of [loop] at clock reading
    [now], if [now - last_query_] (the [uint32_t] difference, which is the
    plain difference when the clock has not wrapped since) is at least the
    interval, exactly one query is written and [last_query_] becomes the
    clock reading; otherwise nothing is written and [last_query_] stays.
    However long the elapsed time, one call writes at most one query.
    From [last_query_ = 0], calls at 0, 50, 100, 150 and 250 ms write a
    query at 100 and at 250 and at no other call. *)
Theorem loop_poll_interval (st : SCPIDMM) (available : list ascii) (now : Z) :
  query_interval_ = 100 ∧
  (0 ≤ last_query_ st → last_query_ st ≤ now → now < 2 ^ 32 →
     (now - last_query_ st) mod 2 ^ 32 = now - last_query_ st) ∧
  (query_interval_ ≤ (now - last_query_ st) mod 2 ^ 32 →
     (∃ query : string,
        uart_tx (trace_of (loop stof available now now st)) = [query +:+ Str.CRLF]) ∧
     last_query_ (state_of (loop stof available now now st)) = now) ∧
  ((now - last_query_ st) mod 2 ^ 32 < query_interval_ →
     uart_tx (trace_of (loop stof available now now st)) = [] ∧
     last_query_ (state_of (loop stof available now now st)) = last_query_ st ∧
     @loop_poll float now now st = (tt, st, [])) ∧
  (∀ now' : Z,
     (List.length (uart_tx (trace_of (loop stof available now now' st))) ≤ 1)%nat ∧
     (query_interval_ ≤ (now - last_query_ st) mod 2 ^ 32 →
        last_query_ (state_of (loop stof available now now' st)) = now')) ∧
  (last_query_ st = 0 →
     ticks stof [0; 50; 100; 150; 250] st =
       [[]; [];
        [table_query default_DeviceCommands (current_function_ st) +:+ Str.CRLF];
        [];
        [table_query default_DeviceCommands (current_function_ st) +:+ Str.CRLF]]).
Proof.
  split; [done|]. split; [|split; [|split; [|split]]].
  - intros H0 Hle Hlt. apply Z.mod_small. lia.
  - intros Hdue. apply Z.leb_le in Hdue.
    destruct (loop_poll_effect available now now st) as (Hu & Hl & _).
    rewrite Hu, Hl, Hdue. split; [by eexists|done].
  - intros Hnot. apply Z.leb_gt in Hnot.
    destruct (loop_poll_effect available now now st) as (Hu & Hl & _).
    by rewrite Hu, Hl, loop_poll_run, Hnot.
  - intros now'.
    destruct (loop_poll_effect available now now' st) as (Hu & Hl & _).
    rewrite Hu, Hl. split.
    + destruct (query_interval_ <=? (now - last_query_ st) mod 2 ^ 32); simpl; lia.
    + intros Hdue. apply Z.leb_le in Hdue. by rewrite Hdue.
  - intros Hl. by rewrite ticks_due, Hl.
Qed.

(** C6 (as amended).  The query [query_measurement_] sends is fixed by the
    current function alone: it is the string the default-valued
    [DeviceCommands] record holds for that function, and "MEAS?" for
    [UNKNOWN], terminator appended.  The command table is not consulted.
    This is the query a call of [loop] writes when one is due. *)
Theorem query_measurement_default_table (st : SCPIDMM) :
  @query_measurement_ float st =
    (tt, st,
     [UartWrite (table_query default_DeviceCommands (current_function_ st) +:+ Str.CRLF)]) ∧
  table_query default_DeviceCommands UNKNOWN = "MEAS?" ∧
  (∀ (available : list ascii) (now now' : Z),
     uart_tx (trace_of (loop stof available now now' st)) =
       if query_interval_ <=? (now - last_query_ st) mod 2 ^ 32
       then [table_query default_DeviceCommands (current_function_ st) +:+ Str.CRLF]
       else []).
Proof.
  split; [apply query_measurement_run|]. split; [done|].
  intros available now now'. apply loop_poll_effect.
Qed.

(** C8.  [setup] writes to the instrument link "*IDN?", "*RST" and
    "SYST:REM", in this order, each followed by CR LF, and nothing else;
    it does so from every state, reads no received byte and leaves every
    member as it was. *)
Theorem setup_sends_idn_rst_rem (st : SCPIDMM) :
  uart_tx (trace_of (@setup float st)) =
    ["*IDN?" +:+ Str.CRLF; "*RST" +:+ Str.CRLF; "SYST:REM" +:+ Str.CRLF] ∧
  state_of (@setup float st) = st ∧
  List.filter is_publication (trace_of (@setup float st)) = [].
Proof. done. Qed.

End Properties.

(** *** The function parser *)

Lemma starts_with_spec (pat s : string) :
  Str.starts_with pat s = true ↔ ∃ rest, s = pat +:+ rest.
Proof.
  revert s; induction pat as [|a pat IH]; intros s.
  - split; [by exists s|done].
  - destruct s as [|b s]; simpl.
    + split; [done|]. by intros [rest Hr].
    + destruct (Ascii.eqb_spec a b) as [->|Hab].
      * rewrite IH. split; intros [rest Hr]; exists rest.
        -- by rewrite Hr.
        -- rewrite string_app_cons in Hr. by injection Hr.
      * split; [done|]. intros [rest Hr].
        rewrite string_app_cons in Hr. by injection Hr.
Qed.

(** [find] reports an occurrence exactly when there is one. *)
Lemma found_spec (s pat : string) :
  Str.found s pat = true ↔ contains s pat.
Proof.
  unfold Str.found, contains.
  induction s as [|c s IH]; simpl.
  - destruct (Str.starts_with pat "") eqn:Hp.
    + split; [|done]. intros _. apply starts_with_spec in Hp as [rest Hr].
      by exists "", rest.
    + split; [done|]. intros (before & after & Hs).
      destruct before; [|done]. simpl in Hs.
      assert (Str.starts_with pat "" = true) as Hp'; [|congruence].
      apply starts_with_spec. by exists after.
  - destruct (Str.starts_with pat (String c s)) eqn:Hp.
    + split; [|done]. intros _. apply starts_with_spec in Hp as [rest Hr].
      by exists "", rest.
    + destruct (Str.find s pat) as [i|]; simpl.
      * split; [|done]. intros _.
        destruct (proj1 IH eq_refl) as (before & after & Hs).
        exists (String c before), after. by rewrite string_app_cons, Hs.
      * split; [done|]. intros (before & after & Hs).
        destruct before as [|c' before].
        -- assert (Str.starts_with pat (String c s) = true) as Hp'; [|congruence].
           apply starts_with_spec. by exists after.
        -- rewrite string_app_cons in Hs. injection Hs as _ Hs.
           assert (false = true); [|done]. apply IH. by exists before, after.
Qed.

Lemma transform_app (f : ascii → ascii) (s1 s2 : string) :
  Str.transform f (s1 +:+ s2) = Str.transform f s1 +:+ Str.transform f s2.
Proof.
  induction s1 as [|c s1 IH]; [done|].
  rewrite string_app_cons. simpl. by rewrite IH.
Qed.

Lemma transform_split (f : ascii → ascii) (s a b : string) :
  Str.transform f s = a +:+ b →
  ∃ s1 s2, s = s1 +:+ s2 ∧ Str.transform f s1 = a ∧ Str.transform f s2 = b.
Proof.
  revert s; induction a as [|c a IH]; intros s Hs.
  - by exists "", s.
  - destruct s as [|c' s]; [done|].
    rewrite string_app_cons in Hs. simpl in Hs. injection Hs as Hc Hs.
    destruct (IH s Hs) as (s1 & s2 & -> & H1 & H2).
    exists (String c' s1), s2. simpl. by rewrite Hc, H1, H2.
Qed.

Lemma upper_case_NoDup : NoDup upper_case.
Proof.
  unfold upper_case, Str.bytes. cbn [String.list_ascii_of_string].
  repeat (apply NoDup_cons; split;
          [rewrite ?elem_of_cons, elem_of_nil; intros H;
           repeat (destruct H as [H|H]; [discriminate H|]); exact H|]).
  apply NoDup_nil_2.
Qed.

Ltac letter_index n :=
  first [ exists n; split; reflexivity
        | lazymatch n with
          | 25%nat => fail
          | _ => letter_index (S n)
          end ].

(** [::toupper] leaves a character alone or takes a lower-case letter to
    the upper-case letter of the same rank. *)
Lemma toupper_fixed_or_letter (c : ascii) :
  Str.toupper c = c ∨
  ∃ i : nat, lower_case !! i = Some c ∧ upper_case !! i = Some (Str.toupper c).
Proof.
  destruct c as [[] [] [] [] [] [] [] []];
    first [left; reflexivity | right; letter_index 0%nat].
Qed.

(** The two cases of a letter both go to its upper case. *)
Lemma toupper_letter (i : nat) (a b : ascii) :
  lower_case !! i = Some a → upper_case !! i = Some b →
  Str.toupper a = b ∧ Str.toupper b = b.
Proof.
  do 26 (destruct i as [|i]; [by intros [= <-] [= <-]|]).
  by intros H.
Qed.

(** The case folding of the code against the alphabet: two characters go to
    the same character under [::toupper] exactly when they are equal or the
    two cases of one letter. *)
Lemma same_letter_toupper (a b : ascii) :
  same_letter a b ↔ Str.toupper a = Str.toupper b.
Proof.
  split.
  - intros [->|[i [[Hl Hu]|[Hl Hu]]]]; [done| |];
      destruct (toupper_letter i _ _ Hl Hu) as [-> ->]; done.
  - intros Heq.
    destruct (toupper_fixed_or_letter a) as [Ha|[i [Hla Hua]]],
             (toupper_fixed_or_letter b) as [Hb|[j [Hlb Hub]]].
    + left. congruence.
    + right. exists j. right. split; [done|]. congruence.
    + right. exists i. left. split; [done|]. congruence.
    + left. rewrite Heq in Hua.
      assert (i = j) as -> by (by eapply (NoDup_lookup _ _ _ _ upper_case_NoDup)).
      congruence.
Qed.

Lemma same_ci_toupper (mid fragment : string) :
  Str.transform Str.toupper fragment = fragment →
  same_ci mid fragment ↔ Str.transform Str.toupper mid = fragment.
Proof.
  unfold same_ci, Str.bytes.
  revert fragment; induction mid as [|c mid IH]; intros [|c' fragment] Hup;
    cbn in *.
  - done.
  - split; [by intros H; inversion H|done].
  - split; [by intros H; inversion H|done].
  - injection Hup as Hc Hup. rewrite Forall2_cons, same_letter_toupper, (IH _ Hup), Hc.
    split; [by intros [-> ->]|by intros [= -> ->]].
Qed.

Lemma fragments_upper (fragment : string) (f : MeasurementFunction) :
  (fragment, f) ∈ fragments → Str.transform Str.toupper fragment = fragment.
Proof.
  unfold fragments. rewrite !elem_of_cons, elem_of_nil.
  intros H. repeat (destruct H as [[= -> ->]|H]; [done|]). done.
Qed.

(** Searching the upper-cased command for an upper-case fragment is
    searching the command without regard to letter case. *)
Lemma found_upper (command fragment : string) :
  Str.transform Str.toupper fragment = fragment →
  Str.found (Str.transform Str.toupper command) fragment = true ↔
  contains_ci command fragment.
Proof.
  intros Hup. rewrite found_spec. unfold contains, contains_ci. split.
  - intros (before & after & Hs).
    apply transform_split in Hs as (s1 & s23 & -> & H1 & Hs).
    apply transform_split in Hs as (s2 & s3 & -> & H2 & H3).
    exists s1, s2, s3. split; [done|]. by apply same_ci_toupper.
  - intros (before & mid & after & -> & Hm).
    apply same_ci_toupper in Hm; [|done].
    exists (Str.transform Str.toupper before), (Str.transform Str.toupper after).
    by rewrite !transform_app, Hm.
Qed.

Lemma parse_function_first (command : string) :
  parse_function_ command =
    first_fragment (Str.transform Str.toupper command) fragments.
Proof. reflexivity. Qed.

Lemma first_fragment_hit (upper : string) (table : list (string * MeasurementFunction))
    (i : nat) (fragment : string) (f : MeasurementFunction) :
  table !! i = Some (fragment, f) →
  Str.found upper fragment = true →
  (∀ j fragment' f',
     (j < i)%nat → table !! j = Some (fragment', f') →
     Str.found upper fragment' = false) →
  first_fragment upper table = f.
Proof.
  revert i; induction table as [|[fragment0 f0] rest IH]; intros i Hi Hfound Hbefore.
  - done.
  - destruct i as [|i]; simpl in *.
    + injection Hi as -> ->. by rewrite Hfound.
    + rewrite (Hbefore 0%nat fragment0 f0); [|lia|done].
      apply (IH i); [done|done|].
      intros j fragment' f' Hj Hl. apply (Hbefore (S j) fragment' f'); [lia|done].
Qed.

Lemma first_fragment_miss (upper : string) (table : list (string * MeasurementFunction)) :
  (∀ fragment f, (fragment, f) ∈ table → Str.found upper fragment = false) →
  first_fragment upper table = UNKNOWN.
Proof.
  induction table as [|[fragment0 f0] rest IH]; intros Hnone; [done|].
  simpl. rewrite (Hnone fragment0 f0); [|by left].
  apply IH. intros fragment f Hin. apply (Hnone fragment f). by right.
Qed.

Lemma set_function_run {float : Type} (function : string) (st : SCPIDMM) :
  @set_function float function st =
    (tt, with_current_function_ (parse_function_ function) st,
     UartWrite (function +:+ Str.CRLF) ::
       sink_trace (function_sensor st) (λ obj, FunctionPublish obj function)).
Proof.
  unfold set_function, send_command, write_str, publish_if_bound,
    mbind, Comp_bind, gets, modify, emit, skip, mret, Comp_ret.
  cbn. by destruct (function_sensor st).
Qed.

(** C4.  [parse_function_] looks, without regard to letter case, for the
    fragments "VOLT:DC", "VOLT:AC", "CURR:DC", "CURR:AC", "RES", "CONT",
    "DIOD", "FREQ", "TEMP", "CAP" in this order, anywhere in the command: it
    returns the function of the first fragment the command holds, and
    [UNKNOWN] when it holds none.  [set_function] forwards the raw command
    and stores that function; for "MEAS:VOLT:DC?" and for
    "ANYTHING VOLT:DC MORE" it is [VOLTAGE_DC]. *)
Theorem parse_function_priority (command : string) :
  (∀ (i : nat) (fragment : string) (f : MeasurementFunction),
     fragments !! i = Some (fragment, f) →
     contains_ci command fragment →
     (∀ j fragment' f',
        (j < i)%nat → fragments !! j = Some (fragment', f') →
        ¬ contains_ci command fragment') →
     parse_function_ command = f) ∧
  ((∀ fragment f, (fragment, f) ∈ fragments → ¬ contains_ci command fragment) →
     parse_function_ command = UNKNOWN) ∧
  (∀ (float : Type) (st : SCPIDMM),
     current_function_ (state_of (@set_function float command st)) =
       parse_function_ command ∧
     uart_tx (trace_of (@set_function float command st)) = [command +:+ Str.CRLF] ∧
     current_function_ (state_of (@set_function float "MEAS:VOLT:DC?" st)) =
       VOLTAGE_DC ∧
     current_function_ (state_of (@set_function float "ANYTHING VOLT:DC MORE" st)) =
       VOLTAGE_DC).
Proof.
  split; [|split].
  - intros i fragment f Hi Hc Hbefore.
    rewrite parse_function_first. apply (first_fragment_hit _ _ i fragment); [done| |].
    + apply found_upper; [|done].
      by apply (fragments_upper fragment f), list_elem_of_lookup_2 with i.
    + intros j fragment' f' Hj Hl. apply not_true_is_false.
      rewrite found_upper; [by apply (Hbefore j fragment' f')|].
      by apply (fragments_upper fragment' f'), list_elem_of_lookup_2 with j.
  - intros Hnone. rewrite parse_function_first. apply first_fragment_miss.
    intros fragment f Hin. apply not_true_is_false.
    rewrite found_upper; [by apply (Hnone fragment f)|].
    by apply (fragments_upper fragment f).
  - intros float st. rewrite !set_function_run.
    unfold state_of, trace_of; cbn [fst snd current_function_ with_current_function_ uart_tx].
    repeat split; by destruct (function_sensor st).
Qed.

(** *** The command table *)

(** C7.  Command-table lookup is a total function of the device type with
    no state: it returns the entry stored under the key when the device type
    is one of the keys, "OWON_XDM" and "KEYSIGHT_34460A", and the
    default-valued [DeviceCommands] record for every other string; the match
    is exact, so a key in another letter case takes the default. *)
Theorem lookup_commands_total (device_type : string) :
  (∀ entry : DeviceCommands,
     DEVICE_COMMANDS !! device_type = Some entry →
     lookup_commands device_type = entry) ∧
  (DEVICE_COMMANDS !! device_type = None →
     lookup_commands device_type = default_DeviceCommands) ∧
  (DEVICE_COMMANDS !! device_type = None ↔
     device_type ≠ "OWON_XDM" ∧ device_type ≠ "KEYSIGHT_34460A") ∧
  lookup_commands "OWON_XDM" = OWON_XDM_commands ∧
  lookup_commands "KEYSIGHT_34460A" = KEYSIGHT_34460A_commands ∧
  lookup_commands "owon_xdm" = default_DeviceCommands.
Proof.
  unfold lookup_commands.
  split; [by intros entry ->|]. split; [by intros ->|]. split; [|done].
  unfold DEVICE_COMMANDS. rewrite !lookup_insert_None, lookup_empty.
  split.
  - intros [[_ Hk] Ho]. split; congruence.
  - intros [Ho Hk]. repeat split; congruence.
Qed.

(** ** Concrete runs *)

(** A freshly constructed component receives "GARBLED" as its first line:
    the line is consumed as the identification (the flag goes down), but
    with no identification sensor bound nothing at all is published. *)
Lemma first_line_not_published :
  waiting_for_idn_ SCPIDMM_init = true ∧
  idn_sensor SCPIDMM_init = None ∧
  trace_of (loop Strtof.stof (Str.bytes ("GARBLED" +:+ Str.CRLF)) 0 0 SCPIDMM_init) = [] ∧
  waiting_for_idn_
    (state_of (loop Strtof.stof (Str.bytes ("GARBLED" +:+ Str.CRLF)) 0 0 SCPIDMM_init)) =
    false.
Proof. vm_compute. by repeat split. Qed.

Lemma first_response_is_identification_witness :
  waiting_for_idn_ (with_idn_sensor (Some 7%positive) SCPIDMM_init) = true ∧
  "GARBLED" ≠ "" ∧
  handle_response_ Strtof.stof "GARBLED" (with_idn_sensor (Some 7%positive) SCPIDMM_init) =
    (tt, with_waiting_for_idn_ false (with_idn_sensor (Some 7%positive) SCPIDMM_init),
     [IdnPublish 7%positive "GARBLED"]).
Proof.
  split; [reflexivity|]. split; [discriminate|].
  apply (proj1 (proj2 (first_response_is_identification Strtof.stof)));
    [reflexivity|discriminate].
Defined.

Lemma loop_byte_line_framing_witness :
  rx_buffer_ (running 1%positive) = "" ∧
  loop_rx Strtof.stof (Str.bytes ("5.123456E-03" +:+ Str.CRLF)) (running 1%positive) =
    (tt, running 1%positive, [ValuePublish 1%positive (S754_finite false 11002538 (-31))]).
Proof.
  split; [reflexivity|].
  destruct (loop_byte_line_framing Strtof.stof (running 1%positive) Str.LF)
    as (_ & _ & _ & _ & Hline).
  destruct (Hline eq_refl) as [_ Hrun].
  exact Hrun.
Defined.

(** With the flag down and no value sensor bound, the numeric line
    "5.123456E-03" is read as 0.005123456 and published nowhere. *)
Lemma numeric_response_without_sink :
  waiting_for_idn_ (with_waiting_for_idn_ false SCPIDMM_init) = false ∧
  value_sensor (with_waiting_for_idn_ false SCPIDMM_init) = None ∧
  Strtof.stof "5.123456E-03" = Some (S754_finite false 11002538 (-31)) ∧
  handle_response_ Strtof.stof "5.123456E-03" (with_waiting_for_idn_ false SCPIDMM_init) =
    (tt, with_waiting_for_idn_ false SCPIDMM_init, []).
Proof. vm_compute. by repeat split. Qed.

Lemma handle_response_numeric_witness :
  waiting_for_idn_ (running 1%positive) = false ∧
  "7.25 V" ≠ "" ∧
  Strtof.stof "7.25 V" = Some (S754_finite false 15204352 (-21)) ∧
  handle_response_ Strtof.stof "7.25 V" (running 1%positive) =
    (tt, running 1%positive, [ValuePublish 1%positive (S754_finite false 15204352 (-21))]).
Proof.
  split; [reflexivity|]. split; [discriminate|]. split; [reflexivity|].
  apply (proj1 (handle_response_numeric Strtof.stof)
           (running 1%positive) "7.25 V" (S754_finite false 15204352 (-21)));
    [reflexivity|discriminate|reflexivity].
Defined.

Lemma parse_function_priority_witness :
  parse_function_ "meas:volt:ac?" = VOLTAGE_AC.
Proof.
  apply (proj1 (parse_function_priority "meas:volt:ac?") 1%nat "VOLT:AC").
  - reflexivity.
  - exists "meas:", "volt:ac", "?". split; [reflexivity|].
    apply same_ci_toupper; reflexivity.
  - intros j fragment' f' Hj Hl.
    destruct j as [|j]; [|lia]. injection Hl as <- <-.
    intros Hc. apply found_upper in Hc; [discriminate Hc|reflexivity].
Defined.

Lemma loop_poll_interval_witness :
  query_interval_ ≤ (100 - last_query_ SCPIDMM_init) mod 2 ^ 32 ∧
  (∃ query : string,
     uart_tx (trace_of (loop Strtof.stof [] 100 100 SCPIDMM_init)) =
       [query +:+ Str.CRLF]) ∧
  last_query_ (state_of (loop Strtof.stof [] 100 100 SCPIDMM_init)) = 100.
Proof.
  assert (query_interval_ ≤ (100 - last_query_ SCPIDMM_init) mod 2 ^ 32) as Hdue.
  { vm_compute. discriminate. }
  split; [exact Hdue|].
  destruct (loop_poll_interval Strtof.stof SCPIDMM_init [] 100)
    as (_ & _ & Hquery & _).
  exact (Hquery Hdue).
Defined.

(** The "OWON_XDM" entry asks for DC voltage with "MEAS:VOLT?"; the query
    sent for [VOLTAGE_DC] is "MEAS:VOLT:DC?" all the same. *)
Lemma owon_voltage_dc_query_not_from_table :
  DEVICE_COMMANDS !! "OWON_XDM" = Some OWON_XDM_commands ∧
  table_query OWON_XDM_commands VOLTAGE_DC = "MEAS:VOLT?" ∧
  uart_tx (trace_of (@query_measurement_ spec_float (with_current_function_ VOLTAGE_DC SCPIDMM_init))) =
    ["MEAS:VOLT:DC?" +:+ Str.CRLF] ∧
  uart_tx (trace_of (@query_measurement_ spec_float (with_current_function_ VOLTAGE_DC SCPIDMM_init))) ≠
    [table_query (lookup_commands "OWON_XDM") VOLTAGE_DC +:+ Str.CRLF].
Proof. repeat split; [reflexivity..|discriminate]. Qed.

Lemma lookup_commands_total_witness :
  DEVICE_COMMANDS !! "FLUKE_8846A" = None ∧
  lookup_commands "FLUKE_8846A" = default_DeviceCommands.
Proof.
  split; [reflexivity|].
  apply (proj1 (proj2 (lookup_commands_total "FLUKE_8846A"))). reflexivity.
Defined.

Lemma rx_buffer_only_accumulates_witness :
  rx_buffer_
    (state_of
       (exec_all Strtof.stof
          [call_loop (Str.bytes "5.1") 0 0; call_set_function "MEAS:RES?";
           call_loop (Str.bytes ("23" +:+ String Str.CR "")) 50 50]
          SCPIDMM_init)) =
  "5.123".
Proof.
  apply (proj1 (proj2 (proj2 (proj2 (rx_buffer_only_accumulates Strtof.stof))))
           SCPIDMM_init
           [call_loop (Str.bytes "5.1") 0 0; call_set_function "MEAS:RES?";
            call_loop (Str.bytes ("23" +:+ String Str.CR "")) 50 50]).
  repeat constructor; discriminate.
Defined.

(** ** Further properties of the receive path, the polling and the commands *)

Lemma bytes_app (s1 s2 : string) :
  Str.bytes (s1 +:+ s2) = Str.bytes s1 ++ Str.bytes s2.
Proof.
  induction s1 as [|c s1 IH]; [done|].
  rewrite string_app_cons. unfold Str.bytes in *. simpl. by rewrite IH.
Qed.

Lemma terminator_free_cons (c : ascii) (s : string) :
  terminator_free (String c s) ↔ (c ≠ Str.CR ∧ c ≠ Str.LF) ∧ terminator_free s.
Proof.
  unfold terminator_free, Str.bytes. simpl.
  apply (Forall_cons (λ c, c ≠ Str.CR ∧ c ≠ Str.LF)).
Qed.

Lemma terminator_free_push_back (s : string) (c : ascii) :
  terminator_free s → c ≠ Str.CR → c ≠ Str.LF →
  terminator_free (Str.push_back s c).
Proof.
  unfold terminator_free, Str.push_back. intros Hs Hcr Hlf.
  rewrite bytes_app. apply Forall_app. split; [done|].
  by repeat constructor.
Qed.

(** The bytes of a line without terminator only extend the buffer. *)
Lemma frame_line (line : string) (buffer : string) (rest : list ascii) :
  terminator_free line →
  Framer.frame buffer (Str.bytes line ++ rest) =
    Framer.frame (buffer +:+ line) rest.
Proof.
  revert buffer; induction line as [|c line IH]; intros buffer Hfree.
  - by rewrite string_app_nil_r.
  - apply terminator_free_cons in Hfree as [[Hcr Hlf] Hfree].
    change (Str.bytes (String c line) ++ rest)
      with (c :: (Str.bytes line ++ rest)).
    cbn [Framer.frame]. unfold Framer.feed.
    apply Ascii.eqb_neq in Hcr, Hlf. rewrite Hcr, Hlf.
    rewrite IH by done. unfold Str.push_back.
    by rewrite string_app_assoc.
Qed.

Lemma frame_wire (line : string) (rest : list ascii) :
  line ≠ "" → terminator_free line →
  Framer.frame "" (wire line ++ rest) =
    (line :: (Framer.frame "" rest).1, (Framer.frame "" rest).2).
Proof.
  intros Hne Hfree. unfold wire. rewrite bytes_app, <- app_assoc.
  rewrite frame_line by done.
  change (Str.bytes Str.CRLF ++ rest) with (Str.CR :: Str.LF :: rest).
  cbn [Framer.frame]. unfold Framer.feed at 1. cbn.
  change ("" +:+ line) with line.
  apply string_empty_false in Hne. rewrite Hne.
  by destruct (Framer.frame "" rest).
Qed.

Lemma frame_wire_all (lines : list string) :
  Forall (λ line, line ≠ "" ∧ terminator_free line) lines →
  Framer.frame "" (wire_all lines) = (lines, "").
Proof.
  induction 1 as [|line rest [Hne Hfree] _ IH]; [done|].
  cbn [wire_all]. rewrite frame_wire by done. by rewrite IH.
Qed.

Lemma frame_terminator_free (bytes : list ascii) (buffer : string) :
  terminator_free buffer →
  Forall (λ line, line ≠ "" ∧ terminator_free line) (Framer.frame buffer bytes).1 ∧
  terminator_free (Framer.frame buffer bytes).2.
Proof.
  revert buffer; induction bytes as [|c rest IH]; intros buffer Hfree.
  - split; [constructor|done].
  - cbn [Framer.frame]. unfold Framer.feed.
    destruct (Ascii.eqb_spec c Str.LF) as [->|Hlf].
    + destruct (Str.empty buffer) eqn:He; [by apply IH|].
      destruct (IH "") as [Hl Hf]; [constructor|].
      destruct (Framer.frame "" rest) as [lines final]. cbn [fst snd] in *.
      split; [|done]. constructor; [|done].
      split; [by apply string_empty_false|done].
    + destruct (Ascii.eqb_spec c Str.CR) as [->|Hcr]; [by apply IH|].
      apply IH. by apply terminator_free_push_back.
Qed.

Lemma terminated_intro (body : string) : terminated (body +:+ Str.CRLF).
Proof. by exists body. Qed.

Lemma ascending_weaken (low low' : Z) (ts : list Z) :
  low' ≤ low → ascending low ts → ascending low' ts.
Proof.
  destruct ts as [|t rest]; [done|]. cbn.
  intros Hlow (Hle & Hlt & Hrest). repeat split; [lia|done|done].
Qed.

Lemma DEVICE_COMMANDS_entries (key : string) (entry : DeviceCommands) :
  DEVICE_COMMANDS !! key = Some entry →
  (key = "OWON_XDM" ∧ entry = OWON_XDM_commands) ∨
  (key = "KEYSIGHT_34460A" ∧ entry = KEYSIGHT_34460A_commands).
Proof.
  unfold DEVICE_COMMANDS. rewrite !lookup_insert_Some, lookup_empty.
  intros [[<- <-]|[_ [[<- <-]|[_ ?]]]]; [by left|by right|done].
Qed.

Lemma toupper_colon (c : ascii) : Str.toupper c = ":"%char → c = ":"%char.
Proof.
  destruct c as [[] [] [] [] [] [] [] []]; vm_compute; intros H;
    first [reflexivity | discriminate H].
Qed.

Lemma upper_colon (s : string) :
  In ":"%char (Str.bytes (Str.transform Str.toupper s)) →
  In ":"%char (Str.bytes s).
Proof.
  induction s as [|c s IH]; [done|].
  unfold Str.bytes in *. simpl. intros [Hc|Hin].
  - left. by apply toupper_colon.
  - right. by apply IH.
Qed.

Lemma contains_In (s pat : string) (c : ascii) :
  contains s pat → In c (Str.bytes pat) → In c (Str.bytes s).
Proof.
  intros (before & after & ->) Hin. rewrite !bytes_app, !in_app_iff. tauto.
Qed.

Lemma found_colon (command fragment : string) :
  In ":"%char (Str.bytes fragment) →
  ¬ In ":"%char (Str.bytes command) →
  Str.found (Str.transform Str.toupper command) fragment = false.
Proof.
  intros Hfrag Hcmd. apply not_true_is_false. intros Hfound.
  apply found_spec in Hfound. apply Hcmd, upper_colon.
  by apply (contains_In _ fragment).
Qed.

Section Further.

Context {float : Type}.
Variable stof : string → option float.

Lemma seq_run (m k : Comp float unit) (st : SCPIDMM) :
  (m;; k) st =
    (tt, state_of (k (state_of (m st))),
     trace_of (m st) ++ trace_of (k (state_of (m st)))).
Proof.
  rewrite bind_run.
  by destruct (k (state_of (m st))) as [[[] ?] ?].
Qed.

Lemma comp_unit_eta (m : Comp float unit) (st : SCPIDMM) :
  m st = (tt, state_of (m st), trace_of (m st)).
Proof. by destruct (m st) as [[[] ?] ?]. Qed.

Lemma loop_rx_cons (c : ascii) (rest : list ascii) (st : SCPIDMM) :
  loop_rx stof (c :: rest) st =
    (tt, state_of (loop_rx stof rest (state_of (loop_byte stof c st))),
     trace_of (loop_byte stof c st) ++
     trace_of (loop_rx stof rest (state_of (loop_byte stof c st)))).
Proof. cbn [loop_rx]. apply seq_run. Qed.

Lemma loop_byte_cr (st : SCPIDMM) : loop_byte stof Str.CR st = (tt, st, []).
Proof. done. Qed.

(** X1.  Carriage returns play no part in reception: [loop] handles a byte
    sequence exactly as it handles the sequence with every carriage return
    removed, wherever they stand.  A line ended by a bare line feed is
    accepted, and a carriage return inside a line joins its two halves. *)
Theorem loop_rx_ignores_cr (bytes : list ascii) (st : SCPIDMM) :
  loop_rx stof bytes st = loop_rx stof (without_cr bytes) st.
Proof.
  revert st; induction bytes as [|c rest IH]; intros st; [done|].
  unfold without_cr in *. cbn [List.filter].
  destruct (Ascii.eqb_spec c Str.CR) as [->|Hc]; cbn [negb].
  - rewrite loop_rx_cons, loop_byte_cr.
    unfold state_of, trace_of; cbn [fst snd app].
    rewrite IH. symmetry. apply comp_unit_eta.
  - by rewrite !loop_rx_cons, !IH.
Qed.

(** The byte loop over a sequence cut in two. *)
Lemma loop_rx_app (bytes1 bytes2 : list ascii) (st : SCPIDMM) :
  loop_rx stof (bytes1 ++ bytes2) st =
    (tt, state_of (loop_rx stof bytes2 (state_of (loop_rx stof bytes1 st))),
     trace_of (loop_rx stof bytes1 st) ++
     trace_of (loop_rx stof bytes2 (state_of (loop_rx stof bytes1 st)))).
Proof.
  revert st; induction bytes1 as [|c rest IH]; intros st.
  - cbn. apply comp_unit_eta.
  - cbn [app]. rewrite !loop_rx_cons, IH.
    unfold state_of, trace_of; cbn [fst snd]. by rewrite app_assoc.
Qed.

Lemma local_events_app (t1 t2 : list (Event float)) :
  local_events (t1 ++ t2) = local_events t1 ++ local_events t2.
Proof. apply List.filter_app. Qed.

Lemma handle_response_local (response : string) (st : SCPIDMM) :
  local_events (trace_of (handle_response_ stof response st)) =
    trace_of (handle_response_ stof response st).
Proof.
  rewrite handle_response_run.
  destruct (Str.empty response); [done|].
  destruct (waiting_for_idn_ st).
  - by destruct (idn_sensor st).
  - destruct (stof response); [|done]. by destruct (value_sensor st).
Qed.

Lemma handle_all_local (lines : list string) (st : SCPIDMM) :
  local_events (trace_of (handle_all stof lines st)) =
    trace_of (handle_all stof lines st).
Proof.
  revert st; induction lines as [|line rest IH]; intros st; [done|].
  rewrite handle_all_cons.
  unfold trace_of at 1 4; cbn [snd].
  by rewrite local_events_app, handle_response_local, IH.
Qed.

(** What is received leaves only local events behind. *)
Lemma loop_rx_local (bytes : list ascii) (st : SCPIDMM) :
  local_events (trace_of (loop_rx stof bytes st)) =
    trace_of (loop_rx stof bytes st).
Proof.
  rewrite loop_rx_frame. unfold trace_of at 1 3; cbn [snd].
  apply handle_all_local.
Qed.

Lemma handle_response_last_query (q : Z) (response : string) (st : SCPIDMM) :
  handle_response_ stof response (with_last_query_ q st) =
    (tt, with_last_query_ q (state_of (handle_response_ stof response st)),
     trace_of (handle_response_ stof response st)).
Proof.
  rewrite !handle_response_run.
  destruct (Str.empty response); [done|]. simpl.
  destruct (waiting_for_idn_ st); [done|].
  by destruct (stof response).
Qed.

Lemma handle_all_last_query (q : Z) (lines : list string) (st : SCPIDMM) :
  handle_all stof lines (with_last_query_ q st) =
    (tt, with_last_query_ q (state_of (handle_all stof lines st)),
     trace_of (handle_all stof lines st)).
Proof.
  revert st; induction lines as [|line rest IH]; intros st; [done|].
  rewrite !handle_all_cons, handle_response_last_query.
  unfold state_of, trace_of in *; cbn [fst snd].
  by rewrite IH.
Qed.

(** Reception does not look at the time of the last query. *)
Lemma loop_rx_last_query (q : Z) (bytes : list ascii) (st : SCPIDMM) :
  loop_rx stof bytes (with_last_query_ q st) =
    (tt, with_last_query_ q (state_of (loop_rx stof bytes st)),
     trace_of (loop_rx stof bytes st)).
Proof.
  rewrite !loop_rx_frame. cbn [rx_buffer_ with_last_query_].
  rewrite handle_all_last_query.
  unfold state_of, trace_of; cbn [fst snd]. reflexivity.
Qed.

Lemma with_last_query_same (st : SCPIDMM) :
  with_last_query_ (last_query_ st) st = st.
Proof. by destruct st. Qed.

(** After a call of [loop] the component is as after its byte loop, the
    time of the last query apart; the trace adds at most a write. *)
Lemma loop_after_rx (available : list ascii) (now now' : Z) (st : SCPIDMM) :
  (∃ q, state_of (loop stof available now now' st) =
          with_last_query_ q (state_of (loop_rx stof available st))) ∧
  local_events (trace_of (loop stof available now now' st)) =
    trace_of (loop_rx stof available st).
Proof.
  rewrite loop_run, loop_poll_run.
  unfold state_of, trace_of; cbn [fst snd].
  rewrite local_events_app.
  pose proof (loop_rx_local available st) as Hl. unfold trace_of in Hl. rewrite Hl.
  match goal with |- context [if ?b then _ else _] => destruct b end;
    cbn [fst snd]; (split; [|by rewrite app_nil_r]).
  - by exists now'.
  - exists (last_query_ (loop_rx stof available st).1.2).
    by rewrite with_last_query_same.
Qed.

Lemma loops_after_rx (calls : list Call) (q : Z) (st : SCPIDMM) :
  forallb is_loop_call calls = true →
  (∃ q', state_of (exec_all stof calls (with_last_query_ q st)) =
           with_last_query_ q' (state_of (loop_rx stof (received calls) st))) ∧
  local_events (trace_of (exec_all stof calls (with_last_query_ q st))) =
    trace_of (loop_rx stof (received calls) st).
Proof.
  revert q st; induction calls as [|c rest IH]; intros q st Hall.
  - split; [by exists q|done].
  - cbn [forallb] in Hall. apply andb_prop in Hall as [Hc Hrest].
    destruct c; try done. cbn [exec_all exec received].
    rewrite seq_run.
    destruct (loop_after_rx available now now' (with_last_query_ q st))
      as [[q1 Hs1] Ht1].
    rewrite loop_rx_last_query in Hs1, Ht1.
    unfold state_of, trace_of in *; cbn [fst snd] in *.
    rewrite Hs1.
    replace (with_last_query_ q1 (with_last_query_ q (loop_rx stof available st).1.2))
      with (with_last_query_ q1 (loop_rx stof available st).1.2) by done.
    destruct (IH q1 (loop_rx stof available st).1.2 Hrest) as [[q' Hs] Ht].
    rewrite local_events_app, Ht1, Ht, Hs, loop_rx_app.
    unfold state_of, trace_of; cbn [fst snd].
    split; [by exists q'|done].
Qed.

(** X2.  How the received bytes are cut into calls of [loop] does not
    matter: after any number of calls of [loop], whatever their clock
    readings, the sensor publications and log lines are, in order, those of
    a single byte loop over all the bytes received, and so is the component
    (buffer and identification flag included), the time of the last query
    apart. *)
Theorem loop_chunking (calls : list Call) (st : SCPIDMM) :
  forallb is_loop_call calls = true →
  local_events (trace_of (exec_all stof calls st)) =
    trace_of (loop_rx stof (received calls) st) ∧
  ∃ q, state_of (exec_all stof calls st) =
         with_last_query_ q (state_of (loop_rx stof (received calls) st)).
Proof.
  intros Hall.
  destruct (loops_after_rx calls (last_query_ st) st Hall) as [Hs Ht].
  rewrite with_last_query_same in Hs, Ht. by split.
Qed.

Lemma handle_all_keeps_buffer (lines : list string) (st : SCPIDMM) :
  with_rx_buffer_ (rx_buffer_ st) (state_of (handle_all stof lines st)) =
    state_of (handle_all stof lines st).
Proof.
  destruct (handle_all_shape stof lines st) as (w & -> & _). by destruct st.
Qed.

(** X3.  Lines survive the link: when non-empty lines that hold no CR and
    no LF are each followed by CR LF and received into an empty buffer,
    [loop] hands the response handler exactly these lines, in order, and
    leaves the buffer empty.  The bytes [send_command] writes for a command
    are such a line. *)
Theorem wire_round_trip (lines : list string) (st : SCPIDMM) :
  Forall (λ line, line ≠ "" ∧ terminator_free line) lines →
  rx_buffer_ st = "" →
  loop_rx stof (wire_all lines) st = handle_all stof lines st ∧
  rx_buffer_ (state_of (loop_rx stof (wire_all lines) st)) = "" ∧
  ∀ (cmd : string) (st' : SCPIDMM),
    map Str.bytes (uart_tx (trace_of (@send_command float cmd st'))) = [wire cmd].
Proof.
  intros Hlines Hbuf.
  assert (loop_rx stof (wire_all lines) st = handle_all stof lines st) as Hrun.
  { rewrite loop_rx_frame, Hbuf, frame_wire_all by done. cbn [fst snd].
    rewrite <- Hbuf, handle_all_keeps_buffer. symmetry. apply comp_unit_eta. }
  split; [done|]. split; [|done].
  rewrite Hrun. destruct (handle_all_shape stof lines st) as (w & -> & _).
  by destruct st.
Qed.

(** X4.  Blank input is not a response: carriage returns and line feeds
    arriving on an empty buffer, in any number and order, change nothing and
    publish nothing; in particular they do not use up the identification
    slot.  The handler called with the empty string does nothing either. *)
Theorem blank_lines_ignored (bytes : list ascii) (st : SCPIDMM) :
  Forall (λ c, c = Str.CR ∨ c = Str.LF) bytes →
  rx_buffer_ st = "" →
  loop_rx stof bytes st = (tt, st, []) ∧
  handle_response_ stof "" st = (tt, st, []).
Proof.
  intros Hbytes Hbuf. split; [|done].
  induction Hbytes as [|c rest Hc _ IH]; [done|].
  rewrite loop_rx_cons.
  assert (loop_byte stof c st = (tt, st, [])) as ->.
  { rewrite loop_byte_feed, Hbuf.
    destruct Hc as [-> | ->]; cbn; by rewrite <- Hbuf, with_rx_buffer_same. }
  unfold state_of, trace_of; cbn [fst snd]. by rewrite IH.
Qed.

(** X5.  The receive buffer never holds a CR or an LF: on a component whose
    buffer holds none (the constructed one, say), it holds none after any
    sequence of calls.  Every response [loop] hands to the handler is
    non-empty and holds neither of them. *)
Theorem rx_buffer_terminator_free (st : SCPIDMM) :
  terminator_free (rx_buffer_ st) →
  (∀ calls : list Call,
     terminator_free (rx_buffer_ (state_of (exec_all stof calls st)))) ∧
  (∀ available : list ascii,
     ∃ (lines : list string) (final : string),
       loop_rx stof available st =
         (tt, with_rx_buffer_ final (state_of (handle_all stof lines st)),
          trace_of (handle_all stof lines st)) ∧
       Forall (λ line, line ≠ "" ∧ terminator_free line) lines ∧
       terminator_free final).
Proof.
  intros Hfree. split.
  - intros calls. rewrite exec_all_buffer. by apply frame_terminator_free.
  - intros available.
    exists (Framer.frame (rx_buffer_ st) available).1,
           (Framer.frame (rx_buffer_ st) available).2.
    split; [apply loop_rx_frame|]. by apply frame_terminator_free.
Qed.

(** X6.  Receiving never transmits: what a call of [loop] writes to the
    instrument link is the same whatever bytes it receives, and handling
    responses writes nothing.  A response cannot trigger, suppress or alter
    a query. *)
Theorem receiving_never_transmits (st : SCPIDMM) (now now' : Z) :
  (∀ available : list ascii,
     uart_tx (trace_of (loop stof available now now' st)) =
       uart_tx (trace_of (loop stof [] now now' st))) ∧
  (∀ available : list ascii,
     uart_tx (trace_of (loop_rx stof available st)) = []) ∧
  (∀ lines : list string,
     uart_tx (trace_of (handle_all stof lines st)) = []).
Proof.
  split; [|split].
  - intros available.
    destruct (loop_poll_effect stof available now now' st) as [-> _].
    by destruct (loop_poll_effect stof [] now now' st) as [-> _].
  - intros available. rewrite loop_rx_frame. apply handle_all_uart_tx.
  - intros lines. apply handle_all_uart_tx.
Qed.

Lemma exec_terminated (c : Call) (st : SCPIDMM) :
  Forall terminated (uart_tx (trace_of (exec stof c st))).
Proof.
  destruct c as [s|s|s|s|s|s|s|s|s| |available now now'|cmd|function| |response];
    cbn [exec].
  1-6: by constructor.
  1-3: destruct s; by constructor.
  - repeat constructor; apply terminated_intro.
  - destruct (loop_poll_effect stof available now now' st) as [-> _].
    destruct (query_interval_ <=? (now - last_query_ st) mod 2 ^ 32);
      repeat constructor. apply terminated_intro.
  - repeat constructor. apply terminated_intro.
  - rewrite set_function_run. unfold trace_of; cbn [snd uart_tx].
    destruct (function_sensor st); repeat constructor; apply terminated_intro.
  - rewrite query_measurement_run. repeat constructor. apply terminated_intro.
  - pose proof (handle_all_uart_tx stof [response] st) as Hu.
    rewrite handle_all_cons in Hu. unfold trace_of in *; cbn [snd handle_all] in Hu.
    rewrite uart_tx_app in Hu. apply app_eq_nil in Hu as [-> _]. constructor.
Qed.

(** X7.  Nothing is written to the instrument link without its terminator:
    over any sequence of calls, every string written ends with CR LF. *)
Theorem uart_writes_terminated (calls : list Call) (st : SCPIDMM) :
  Forall terminated (uart_tx (trace_of (exec_all stof calls st))).
Proof.
  revert st; induction calls as [|c rest IH]; intros st; [constructor|].
  cbn [exec_all]. rewrite seq_run.
  unfold trace_of at 1; cbn [snd]. rewrite uart_tx_app.
  apply Forall_app. split; [apply exec_terminated|apply IH].
Qed.

(** X8.  Queries are never closer than the interval: over calls of [loop]
    at clock readings that do not go back (and have not wrapped), every
    query is written at least 100 ms after the previous one, the first at
    least 100 ms after the stored time of the last query. *)
Theorem polls_are_spaced (ts : list Z) (st : SCPIDMM) :
  0 ≤ last_query_ st →
  ascending (last_query_ st) ts →
  spaced (last_query_ st) (poll_times stof ts st).
Proof.
  revert st; induction ts as [|t rest IH]; intros st Hlast Hasc; [done|].
  cbn [ascending] in Hasc. destruct Hasc as (Hle & Hlt & Hrest).
  cbn [poll_times].
  destruct (loop_poll_effect stof [] t t st) as (Hu & Hl & _).
  rewrite Hu. rewrite Z.mod_small in Hu, Hl |- * by lia.
  destruct (query_interval_ <=? t - last_query_ st) eqn:Hdue.
  - apply Z.leb_le in Hdue. cbn [spaced]. split; [lia|].
    rewrite <- Hl at 1. apply IH; rewrite Hl; [lia|done].
  - rewrite <- Hl at 1. apply IH; rewrite Hl; [done|].
    by apply (ascending_weaken t).
Qed.

(** X9.  The polling follows the wrap of the millisecond clock: when the
    32-bit clock reads [(last_query_ + elapsed) mod 2 ^ 32], the elapsed
    time being less than [2 ^ 32] ms, a query is written exactly when
    [elapsed] has reached the interval, also when the clock has wrapped in
    between. *)
Theorem poll_survives_clock_wrap (st : SCPIDMM) (available : list ascii) (elapsed : Z) :
  0 ≤ last_query_ st → last_query_ st < 2 ^ 32 →
  0 ≤ elapsed → elapsed < 2 ^ 32 →
  uart_tx (trace_of (loop stof available
                       ((last_query_ st + elapsed) mod 2 ^ 32)
                       ((last_query_ st + elapsed) mod 2 ^ 32) st)) =
    (if query_interval_ <=? elapsed
     then [table_query default_DeviceCommands (current_function_ st) +:+ Str.CRLF]
     else []) ∧
  last_query_ (state_of (loop stof available
                           ((last_query_ st + elapsed) mod 2 ^ 32)
                           ((last_query_ st + elapsed) mod 2 ^ 32) st)) =
    (if query_interval_ <=? elapsed
     then (last_query_ st + elapsed) mod 2 ^ 32
     else last_query_ st).
Proof.
  intros H0 H1 H2 H3.
  destruct (loop_poll_effect stof available
              ((last_query_ st + elapsed) mod 2 ^ 32)
              ((last_query_ st + elapsed) mod 2 ^ 32) st) as (-> & -> & _).
  replace (((last_query_ st + elapsed) mod 2 ^ 32 - last_query_ st) mod 2 ^ 32)
    with elapsed; [done|].
  rewrite Zminus_mod_idemp_l.
  replace (last_query_ st + elapsed - last_query_ st) with elapsed by lia.
  symmetry. apply Z.mod_small. lia.
Qed.

Lemma exec_current_function (c : Call) (st : SCPIDMM) :
  current_function_ (state_of (exec stof c st)) =
    match c with
    | call_set_function cmd => parse_function_ cmd
    | _ => current_function_ st
    end.
Proof.
  destruct c as [s|s|s|s|s|s|s|s|s| |available now now'|cmd|function| |response];
    cbn [exec].
  1-6: done.
  1-3: by destruct s.
  - done.
  - by destruct (loop_poll_effect stof available now now' st) as (_ & _ & ->).
  - done.
  - by rewrite set_function_run.
  - by rewrite query_measurement_run.
  - rewrite handle_response_state.
    by destruct (negb (Str.empty response) && waiting_for_idn_ st).
Qed.

(** X10.  The current function is moved by [set_function] alone: after any
    sequence of calls it is what [parse_function_] makes of the command of
    the last [set_function] among them, and the function before when there
    is none.  The next query due asks for that function. *)
Theorem current_function_follows_set_function (calls : list Call) (st : SCPIDMM) :
  current_function_ (state_of (exec_all stof calls st)) =
    match last_set_function calls with
    | Some cmd => parse_function_ cmd
    | None => current_function_ st
    end ∧
  ∀ (available : list ascii) (now now' : Z),
    query_interval_ ≤ (now - last_query_ (state_of (exec_all stof calls st))) mod 2 ^ 32 →
    uart_tx (trace_of (loop stof available now now' (state_of (exec_all stof calls st)))) =
      [table_query default_DeviceCommands
         match last_set_function calls with
         | Some cmd => parse_function_ cmd
         | None => current_function_ st
         end +:+ Str.CRLF].
Proof.
  assert (current_function_ (state_of (exec_all stof calls st)) =
            match last_set_function calls with
            | Some cmd => parse_function_ cmd
            | None => current_function_ st
            end) as Hf.
  { revert st; induction calls as [|c rest IH]; intros st; [done|].
    cbn [exec_all last_set_function]. rewrite seq_run.
    unfold state_of at 1; cbn [fst snd]. rewrite IH.
    destruct (last_set_function rest); [done|].
    rewrite exec_current_function. by destruct c. }
  split; [done|].
  intros available now now' Hdue. apply Z.leb_le in Hdue.
  destruct (loop_poll_effect stof available now now'
              (state_of (exec_all stof calls st))) as (-> & _).
  by rewrite Hdue, Hf.
Qed.

(** X11.  Polling and [set_function] agree on the query strings: the
    command [query_measurement_] writes is one [parse_function_] maps back
    to the current function, so passing it to [set_function] leaves the
    function as it is.  The two queries the "OWON_XDM" entry overrides do
    not have this property: they parse to [UNKNOWN]. *)
Theorem query_strings_parse_back (st : SCPIDMM) :
  (∃ cmd : string,
     uart_tx (trace_of (@query_measurement_ float st)) = [cmd +:+ Str.CRLF] ∧
     parse_function_ cmd = current_function_ st ∧
     current_function_ (state_of (@set_function float cmd st)) =
       current_function_ st) ∧
  parse_function_ (measure_voltage_dc OWON_XDM_commands) = UNKNOWN ∧
  parse_function_ (measure_current_dc OWON_XDM_commands) = UNKNOWN.
Proof.
  split; [|done].
  exists (table_query default_DeviceCommands (current_function_ st)).
  rewrite query_measurement_run, set_function_run.
  split; [done|].
  assert (parse_function_ (table_query default_DeviceCommands (current_function_ st)) =
            current_function_ st) as Hp by (by destruct (current_function_ st)).
  by rewrite Hp.
Qed.

(** X12.  [setup] and the command table: for every entry of
    [DEVICE_COMMANDS], the three commands [setup] writes are the entry's
    [identify], [reset] and [remote_enable]; none of the entry's
    [init_commands] is written by [setup], nor is its [fast_mode] command
    when it has one. *)
Theorem setup_against_table (key : string) (entry : DeviceCommands) (st : SCPIDMM) :
  DEVICE_COMMANDS !! key = Some entry →
  uart_tx (trace_of (@setup float st)) =
    [identify entry +:+ Str.CRLF; reset entry +:+ Str.CRLF;
     remote_enable entry +:+ Str.CRLF] ∧
  (∀ cmd : string,
     In cmd (init_commands entry) →
     ¬ In (cmd +:+ Str.CRLF) (uart_tx (trace_of (@setup float st)))) ∧
  (fast_mode entry ≠ "" →
     ¬ In (fast_mode entry +:+ Str.CRLF) (uart_tx (trace_of (@setup float st)))).
Proof.
  intros Hentry.
  apply DEVICE_COMMANDS_entries in Hentry as [[-> ->]|[-> ->]].
  - split; [done|]. split.
    + intros cmd [<-|[<-|[]]] [H|[H|[H|[]]]]; discriminate H.
    + intros _ [H|[H|[H|[]]]]; discriminate H.
  - split; [done|]. split.
    + intros cmd [<-|[<-|[<-|[<-|[]]]]] [H|[H|[H|[]]]]; discriminate H.
    + by intros H.
Qed.

(** X13.  Where the polling departs from the command table: for an entry of
    [DEVICE_COMMANDS], the query [query_measurement_] writes is the one the
    entry holds for the current function, except under the key "OWON_XDM"
    for [VOLTAGE_DC] and [CURRENT_DC], and only there. *)
Theorem poll_against_table (key : string) (entry : DeviceCommands) (st : SCPIDMM) :
  DEVICE_COMMANDS !! key = Some entry →
  (uart_tx (trace_of (@query_measurement_ float st)) =
     [table_query entry (current_function_ st) +:+ Str.CRLF]) ↔
  ¬ (key = "OWON_XDM" ∧
     (current_function_ st = VOLTAGE_DC ∨ current_function_ st = CURRENT_DC)).
Proof.
  intros Hentry. rewrite query_measurement_run.
  unfold trace_of; cbn [snd uart_tx].
  apply DEVICE_COMMANDS_entries in Hentry as [[-> ->]|[-> ->]].
  - destruct (current_function_ st); cbn; split;
      first [ by intros _
            | by intros _ [_ [?|?]]
            | intros H; discriminate H
            | intros H; exfalso; apply H; split; [done|]; first [by left | by right] ].
  - split; [by intros _ [? _]|intros _]. by destruct (current_function_ st).
Qed.

(** X15.  The sensor setters that store their argument: after
    [set_value_sensor], a numeric response goes to the sensor just given,
    and to none when null was given, whatever was bound before; the last
    of two calls decides.  After [set_function_sensor], [set_function]
    publishes the raw command to the sensor given. *)
Theorem sensor_setters_take_effect (st : SCPIDMM) (sensor : option addr) :
  (∀ (line : string) (value : float),
     waiting_for_idn_ st = false → line ≠ "" → stof line = Some value →
     trace_of ((set_value_sensor sensor;; handle_response_ stof line) st) =
       sink_trace sensor (λ obj, ValuePublish obj value)) ∧
  (∀ other : option addr,
     (set_value_sensor other;; set_value_sensor sensor) st =
       @set_value_sensor float sensor st) ∧
  (∀ function : string,
     trace_of ((set_function_sensor sensor;; set_function function) st) =
       UartWrite (function +:+ Str.CRLF) ::
         sink_trace sensor (λ obj, @FunctionPublish float obj function)).
Proof.
  split; [|split].
  - intros line value Hw Hne Hv. rewrite seq_run, handle_response_run.
    apply string_empty_false in Hne. rewrite Hne.
    unfold set_value_sensor, modify, state_of, trace_of; cbn [fst snd].
    cbn [waiting_for_idn_ with_value_sensor]. by rewrite Hw, Hv.
  - done.
  - intros function. by rewrite seq_run, set_function_run.
Qed.

(** X16.  What the calls leave alone.  A call of [loop] writes three
    members at most, the buffer, the identification flag and the time of
    the last query: sensors, selects, buttons and the current function stay
    as they are, and the flag is not raised.  [set_function] writes the
    current function only, so it disturbs neither a line being received nor
    the polling schedule. *)
Theorem loop_and_set_function_frame (st : SCPIDMM) :
  (∀ (available : list ascii) (now now' : Z),
     ∃ (buffer : string) (waiting : bool) (last : Z),
       state_of (loop stof available now now' st) =
         with_last_query_ last
           (with_rx_buffer_ buffer (with_waiting_for_idn_ waiting st)) ∧
       (waiting_for_idn_ st = false → waiting = false)) ∧
  (∀ function : string,
     state_of (@set_function float function st) =
       with_current_function_ (parse_function_ function) st).
Proof.
  split.
  - intros available now now'. apply loop_shape.
  - intros function. by rewrite set_function_run.
Qed.


End Further.

(** X14.  A command without a colon never selects a voltage or a current
    function: [parse_function_] then returns one of the six other functions
    or [UNKNOWN].  No entry of [FUNCTION_OPTIONS] holds a colon, so of these
    labels only "Resistance", "Capacitance", "Continuity" and "Diode" are
    recognised; the voltage and current labels parse to [UNKNOWN]. *)
Theorem no_colon_no_voltage_or_current :
  (∀ command : string,
     ¬ In ":"%char (Str.bytes command) →
     parse_function_ command ≠ VOLTAGE_DC ∧
     parse_function_ command ≠ VOLTAGE_AC ∧
     parse_function_ command ≠ CURRENT_DC ∧
     parse_function_ command ≠ CURRENT_AC) ∧
  Forall (λ label, ¬ In ":"%char (Str.bytes label)) FUNCTION_OPTIONS ∧
  map parse_function_ FUNCTION_OPTIONS =
    [UNKNOWN; UNKNOWN; UNKNOWN; UNKNOWN;
     RESISTANCE; CAPACITANCE; CONTINUITY; DIODE].
Proof.
  split; [|split; [|done]].
  - intros command Hcolon. unfold parse_function_. cbv zeta.
    rewrite !(found_colon command) by (done || (vm_compute; tauto)).
    repeat destruct (Str.found _ _); by repeat split.
  - repeat constructor; vm_compute; intros H;
      repeat (destruct H as [H|H]; [discriminate H|]); done.
Qed.

(** ** Further concrete runs *)

Lemma loop_chunking_witness :
  local_events
    (trace_of
       (exec_all Strtof.stof
          [call_loop (Str.bytes "7.") 0 0;
           call_loop (Str.bytes ("25" +:+ Str.CRLF)) 120 120]
          (running 1%positive))) =
  [ValuePublish 1%positive (S754_finite false 15204352 (-21))].
Proof.
  apply (proj1 (loop_chunking Strtof.stof
                  [call_loop (Str.bytes "7.") 0 0;
                   call_loop (Str.bytes ("25" +:+ Str.CRLF)) 120 120]
                  (running 1%positive) eq_refl)).
Defined.

Lemma wire_round_trip_witness :
  loop_rx Strtof.stof (wire_all ["OWON,XDM1041"; "7.25"]) SCPIDMM_init =
  handle_all Strtof.stof ["OWON,XDM1041"; "7.25"] SCPIDMM_init.
Proof.
  apply (wire_round_trip Strtof.stof ["OWON,XDM1041"; "7.25"] SCPIDMM_init).
  - repeat constructor; discriminate.
  - reflexivity.
Defined.

Lemma blank_lines_ignored_witness :
  loop_rx Strtof.stof [Str.CR; Str.LF; Str.LF; Str.CR] SCPIDMM_init =
  (tt, SCPIDMM_init, []).
Proof.
  apply (blank_lines_ignored Strtof.stof [Str.CR; Str.LF; Str.LF; Str.CR] SCPIDMM_init).
  - repeat constructor; tauto.
  - reflexivity.
Defined.

Lemma rx_buffer_terminator_free_witness :
  terminator_free
    (rx_buffer_
       (state_of
          (exec_all Strtof.stof
             [call_loop (Str.bytes ("1.5" +:+ Str.CRLF +:+ "2.")) 0 0;
              call_send_command "RATE F"]
             SCPIDMM_init))).
Proof.
  apply (proj1 (rx_buffer_terminator_free Strtof.stof SCPIDMM_init
                  ltac:(constructor))).
Defined.

Lemma polls_are_spaced_witness :
  spaced 0 (poll_times Strtof.stof [0; 50; 100; 150; 250] SCPIDMM_init).
Proof.
  apply (polls_are_spaced Strtof.stof [0; 50; 100; 150; 250] SCPIDMM_init).
  - reflexivity.
  - cbn. repeat split; (discriminate || reflexivity).
Defined.

Lemma poll_survives_clock_wrap_witness :
  uart_tx
    (trace_of
       (loop Strtof.stof [] 60 60 (with_last_query_ (2 ^ 32 - 50) SCPIDMM_init))) =
  ["MEAS?" +:+ Str.CRLF].
Proof.
  apply (proj1 (poll_survives_clock_wrap Strtof.stof
                  (with_last_query_ (2 ^ 32 - 50) SCPIDMM_init) [] 110
                  ltac:(discriminate) ltac:(reflexivity)
                  ltac:(discriminate) ltac:(reflexivity))).
Defined.

Lemma current_function_follows_set_function_witness :
  uart_tx
    (trace_of
       (loop Strtof.stof [] 100 100
          (state_of
             (exec_all Strtof.stof
                [call_set_function "CONF:RES"; call_loop (Str.bytes "x") 10 10]
                SCPIDMM_init)))) =
  ["MEAS:RES?" +:+ Str.CRLF].
Proof.
  apply (proj2 (current_function_follows_set_function Strtof.stof
                  [call_set_function "CONF:RES"; call_loop (Str.bytes "x") 10 10]
                  SCPIDMM_init) [] 100 100).
  discriminate.
Defined.

Lemma setup_against_table_witness :
  ¬ In ("RATE F" +:+ Str.CRLF) (uart_tx (trace_of (@setup spec_float SCPIDMM_init))).
Proof.
  apply (proj1 (proj2 (setup_against_table (float:=spec_float) "OWON_XDM" OWON_XDM_commands
                         SCPIDMM_init eq_refl)) "RATE F").
  left. reflexivity.
Defined.

Lemma poll_against_table_witness :
  uart_tx (trace_of (@query_measurement_ spec_float (with_current_function_ RESISTANCE SCPIDMM_init))) =
  [table_query OWON_XDM_commands RESISTANCE +:+ Str.CRLF].
Proof.
  apply (proj2 (poll_against_table (float:=spec_float) "OWON_XDM" OWON_XDM_commands
                  (with_current_function_ RESISTANCE SCPIDMM_init) eq_refl)).
  intros [_ [H|H]]; discriminate H.
Defined.

Lemma no_colon_no_voltage_or_current_witness :
  parse_function_ "DC Voltage" ≠ VOLTAGE_DC.
Proof.
  apply (proj1 no_colon_no_voltage_or_current "DC Voltage").
  vm_compute. intros H.
  repeat (destruct H as [H|H]; [discriminate H|]). exact H.
Defined.

Lemma sensor_setters_take_effect_witness :
  trace_of
    ((set_value_sensor (Some 2%positive);; handle_response_ Strtof.stof "7.25")
       (running 1%positive)) =
  [ValuePublish 2%positive (S754_finite false 15204352 (-21))].
Proof.
  apply (proj1 (sensor_setters_take_effect Strtof.stof (running 1%positive)
                  (Some 2%positive)) "7.25" (S754_finite false 15204352 (-21)));
    [reflexivity|discriminate|reflexivity].
Defined.

Lemma loop_and_set_function_frame_witness :
  ∃ (buffer : string) (waiting : bool) (last : Z),
    state_of (loop Strtof.stof (Str.bytes "7.") 100 100 (running 1%positive)) =
      with_last_query_ last
        (with_rx_buffer_ buffer (with_waiting_for_idn_ waiting (running 1%positive))) ∧
    (waiting_for_idn_ (running 1%positive) = false → waiting = false).
Proof.
  apply (proj1 (loop_and_set_function_frame Strtof.stof (running 1%positive))).
Defined.
